(** * Funnel search over Matryoshka embeddings

    A shallow embedding of [calculate_score] and [funnel_search] from
    [bootcamp/tutorials/quickstart/funnel_search_with_matryoshka.ipynb].

    - Embeddings are float32 vectors ([torch.tensor] of a Milvus
      FLOAT_VECTOR, the numpy output of the sentence transformer): lists of
      IEEE 754 binary32 values, computed with the operations of
      [SpecFloat] at precision 24.
    - The reductions ([@], [norm], [np.linalg.norm]) are routines of torch
      and numpy whose order of summation the repository does not fix: they
      are an interface ([Reductions]).  The statements about order and
      scores hold for every implementation of it; the reference
      implementation, which adds from left to right, gives the values of
      the examples and the results on zero vectors and NaN, where every
      order agrees.
    - Scores are Python floats (the [.item()] of a float32 tensor) and
      [prune_ratio] is a Python float: binary64 values.
    - A data frame is an object on a heap; [funnel_search] receives a
      reference to the caller's frame, writes its "scores" column and
      rebinds its local variable to the fresh frames that [sort_values] and
      [head] return.
    - [df.apply(f, axis=1)] is the row-wise map the source asks for; on a
      frame without rows pandas returns a copy of the frame instead of a
      Series, and the assignment of that copy to the "scores" column raises
      ValueError.
    - [sort_values] is called with pandas' default [kind]: the sort is an
      interface, known by its result only (see [SortKind]). *)

From Stdlib Require Import ZArith List Bool Lia Permutation Sorted.
From Stdlib Require String.
Import String.StringSyntax.
Delimit Scope string_scope with string.
From Stdlib Require Import Floats.SpecFloat.
Import ListNotations.
Open Scope Z_scope.

Set Implicit Arguments.

(** ** Python exceptions and results *)

Inductive error : Type :=
| RuntimeError    (* torch: size mismatch of the two operands of [@] *)
| ValueError      (* int(nan) *)
| OverflowError.  (* int(inf) *)

Inductive result (A : Type) : Type :=
| Ok (a : A)
| Raise (e : error).
Arguments Ok {A} a.
Arguments Raise {A} e.

Definition rbind {A B} (r : result A) (k : A -> result B) : result B :=
  match r with
  | Ok a => k a
  | Raise e => Raise e
  end.

Fixpoint mapM {A B} (f : A -> result B) (l : list A) : result (list B) :=
  match l with
  | [] => Ok []
  | a :: l' =>
      rbind (f a) (fun b => rbind (mapM f l') (fun bs => Ok (b :: bs)))
  end.

(** ** Python slices

    [l[:d]]: the first [d] items, all of [l] when [d] exceeds its length,
    and all but the last [-d] items when [d] is negative. *)

Definition slice_to {A} (d : Z) (l : list A) : list A :=
  if d <? 0 then firstn (length l - Z.to_nat (- d))%nat l
  else firstn (Z.to_nat d) l.

(** ** Floating point *)

Definition float := spec_float.

Definition is_nan (x : float) : bool :=
  match x with S754_nan => true | _ => false end.

Definition is_zero (x : float) : bool :=
  match x with S754_zero _ => true | _ => false end.

Definition is_finite (x : float) : bool :=
  match x with S754_zero _ | S754_finite _ _ _ => true | _ => false end.

(** binary32: torch.float32 and numpy.float32 *)
Module F32.
Definition prec : Z := 24.
Definition emax : Z := 128.
Definition zero : float := S754_zero false.
Definition add : float -> float -> float := SFadd prec emax.
Definition mul : float -> float -> float := SFmul prec emax.
Definition div : float -> float -> float := SFdiv prec emax.
Definition sqrt : float -> float := SFsqrt prec emax.
Definition of_Z (n : Z) : float := binary_normalize prec emax n 0 false.
End F32.

(** binary64: the Python float *)
Module F64.
Definition prec : Z := 53.
Definition emax : Z := 1024.
Definition zero : float := S754_zero false.
Definition one : float := S754_finite false 4503599627370496 (-52).
Definition mul : float -> float -> float := SFmul prec emax.
Definition of_Z (n : Z) : float := binary_normalize prec emax n 0 false.
Definition valid (x : float) : bool := valid_binary prec emax x.
End F64.

(** [Tensor.item()]: a float32 scalar read as a Python float.  Every
    binary32 value is a binary64 value; only its mantissa and exponent are
    renormalised. *)
Definition item (x : float) : float :=
  match x with
  | S754_finite s m e =>
      binary_normalize F64.prec F64.emax (cond_Zopp s (Zpos m)) e false
  | _ => x
  end.

(** [int(x)] of a Python float: truncation toward zero. *)
Definition int_of_float (x : float) : result Z :=
  match x with
  | S754_nan => Raise ValueError
  | S754_infinity _ => Raise OverflowError
  | S754_zero _ => Ok 0
  | S754_finite s m e => Ok (cond_Zopp s (Z.shiftl (Zpos m) e))
  end.

(** ** Vectors *)

Definition vector := list float.

(** The reductions of the libraries: the sum of the products that [x @ y]
    forms on tensors of one size, torch's [x.norm(p=2)] and numpy's
    [np.linalg.norm(x)].  Each is a float32 value; how it is rounded on
    the way is the library's business. *)
Class Reductions : Type := {
  sum_prod : vector -> vector -> float;
  norm : vector -> float;
  linalg_norm : vector -> float
}.

(** The reference reductions: the products are added from left to right,
    and a norm is the square root of the sum of the squares. *)
Definition left_to_right_sum (x y : vector) : float :=
  fold_left (fun acc ab => F32.add acc (F32.mul (fst ab) (snd ab)))
            (combine x y) F32.zero.

#[export] Instance left_to_right : Reductions := {|
  sum_prod := left_to_right_sum;
  norm := fun x => F32.sqrt (left_to_right_sum x x);
  linalg_norm := fun x => F32.sqrt (left_to_right_sum x x)
|}.

Section Numerics.
Context {R : Reductions}.

(** [x @ y] on one-dimensional tensors; sizes must agree. *)
Definition matmul (x y : vector) : result float :=
  if Nat.eqb (length x) (length y) then Ok (sum_prod x y)
  else Raise RuntimeError.

(** [Tensor.clamp_min]: NaN is propagated. *)
Definition clamp_min (v lo : float) : float :=
  if SFltb v lo then lo else v.

(** The float32 nearest to 1e-12, the default [eps] of [F.normalize]. *)
Definition eps : float := S754_finite false 9223372 (-63).

(** [F.normalize(x, dim=-1)]: [x / max(norm(x), eps)]. *)
Definition F_normalize (x : vector) : vector :=
  let denom := clamp_min (norm x) eps in
  map (fun a => F32.div a denom) x.

(** [query_emb[:dims] / np.linalg.norm(query_emb[:dims])]; numpy divides by
    zero without raising. *)
Definition normalize_query (query_emb : vector) (dims : Z) : vector :=
  let q := slice_to dims query_emb in
  let n := linalg_norm q in
  map (fun a => F32.div a n) q.

End Numerics.

(** ** Data frames *)

Record Row : Type := mkRow {
  title : String.string;
  embedding : vector;
  scores : option float   (* the "scores" column, when the frame has it *)
}.

Definition DataFrame := list Row.

Definition set_score (row : Row) (s : float) : Row :=
  mkRow (title row) (embedding row) (Some s).

(** [calculate_score(row, query_emb, dims)] *)
Definition calculate_score {R : Reductions} (row : Row) (query_emb : vector)
           (dims : Z) : result float :=
  let emb := F_normalize (slice_to dims (embedding row)) in
  rbind (matmul emb query_emb) (fun s => Ok (item s)).

(** [int(prune_ratio * len(df))] *)
Definition prune_count (prune_ratio : float) (len : nat) : result Z :=
  int_of_float (F64.mul prune_ratio (F64.of_Z (Z.of_nat len))).

(** ** The heap of frame objects *)

Definition ref := nat.
Definition Store := list DataFrame.

(** Computations that read and write the heap and may raise.  The heap is
    returned in both cases: a write made before an exception stays. *)
Definition M (A : Type) : Type := Store -> result A * Store.

Definition ret {A} (a : A) : M A := fun st => (Ok a, st).

Definition bind {A B} (m : M A) (k : A -> M B) : M B :=
  fun st =>
    match m st with
    | (Ok a, st') => k a st'
    | (Raise e, st') => (Raise e, st')
    end.

Definition lift {A} (r : result A) : M A := fun st => (r, st).

Declare Scope frame_scope.
Delimit Scope frame_scope with frame.
Notation "x <- m ;; k" := (bind m (fun x => k))
  (at level 100, m at next level, right associativity) : frame_scope.
Notation "m ;;; k" := (bind m (fun _ => k))
  (at level 100, right associativity) : frame_scope.

Definition deref (st : Store) (df : ref) : DataFrame := nth df st [].

Fixpoint update (df : ref) (fr : DataFrame) (st : Store) : Store :=
  match st, df with
  | [], _ => []
  | _ :: st', O => fr :: st'
  | fr0 :: st', S df' => fr0 :: update df' fr st'
  end.

Definition read (df : ref) : M DataFrame := fun st => (Ok (deref st df), st).
Definition write (df : ref) (fr : DataFrame) : M unit :=
  fun st => (Ok tt, update df fr st).
Definition alloc (fr : DataFrame) : M ref :=
  fun st => (Ok (length st), st ++ [fr]).

(** ** Ordering of scores

    [sort_values(by="scores", ascending=False)] orders the rows by
    decreasing score with NaN scores last (pandas' default
    [na_position]). *)

Definition score_key (row : Row) : float :=
  match scores row with
  | Some s => s
  | None => S754_nan
  end.

Definition ge_nan_last (a b : float) : bool :=
  is_nan b || (negb (is_nan a) && SFleb b a).

Definition score_desc (r1 r2 : Row) : Prop :=
  ge_nan_last (score_key r1) (score_key r2) = true.

(** The call leaves [kind] at pandas' default, which promises the order
    above and nothing about rows with equal scores: the sort is an
    interface with these two laws. *)
Class SortKind : Type := {
  sort_values : DataFrame -> DataFrame;
  sort_values_perm : forall fr, Permutation fr (sort_values fr);
  sort_values_desc : forall fr, StronglySorted score_desc (sort_values fr)
}.

(** [df["scores"] = scores], on the rows of the frame *)
Definition assign_scores (fr : DataFrame) (s : list float) : DataFrame :=
  map (fun p => set_score (fst p) (snd p)) (combine fr s).

(** What [df.apply(f, axis=1)] returns: the Series of the values of [f],
    or, on a frame without rows, a copy of that frame. *)
Inductive applied : Type :=
| Series (values : list float)
| Frame (copy : DataFrame).

Section FunnelSearch.
Context {kind : SortKind} {R : Reductions}.
Local Open Scope frame_scope.

(** [df.apply(f, axis=1)]: [f] on every row, first to last.  On a frame
    without rows there is no row to score: pandas returns a copy of the
    frame, not a Series. *)
Definition df_apply (f : Row -> result float) (df : ref) : M applied :=
  fr <- read df ;;
  match fr with
  | [] => ret (Frame fr)
  | _ :: _ => values <- lift (mapM f fr) ;; ret (Series values)
  end.

(** [df["scores"] = value]: a Series becomes the column, row by row; a
    frame of another number of columns than one is refused. *)
Definition df_setitem_scores (df : ref) (value : applied) : M unit :=
  match value with
  | Series values => fr <- read df ;; write df (assign_scores fr values)
  | Frame _ => lift (Raise ValueError)
  end.

(** [df.sort_values(by="scores", ascending=False)]: a new frame *)
Definition df_sort_values (df : ref) : M ref :=
  fr <- read df ;; alloc (sort_values fr).

(** [df.head(n)]: a new frame over [df.iloc[:n]] *)
Definition df_head (df : ref) (n : Z) : M ref :=
  fr <- read df ;; alloc (slice_to n fr).

Definition df_len (df : ref) : M nat :=
  fr <- read df ;; ret (length fr).

(** The body of the loop of [funnel_search]; it returns the frame that
    [df] is bound to when the body ends. *)
Definition funnel_search_body (df : ref) (query_emb : vector) (dims : Z)
           (prune_ratio : float) : M ref :=
  let emb := normalize_query query_emb dims in
  scores <- df_apply (fun row => calculate_score row emb dims) df ;;
  df_setitem_scores df scores ;;;
  df <- df_sort_values df ;;
  n <- df_len df ;;
  k <- lift (prune_count prune_ratio n) ;;
  df_head df k.

(** [funnel_search(df, query_emb, scales, prune_ratio)] *)
Fixpoint funnel_search (df : ref) (query_emb : vector) (scales : list Z)
         (prune_ratio : float) : M ref :=
  match scales with
  | [] => ret df
  | dims :: scales' =>
      df <- funnel_search_body df query_emb dims prune_ratio ;;
      funnel_search df query_emb scales' prune_ratio
  end.

(** *** The rounds as functions on the rows *)

Definition score_frame (query_emb : vector) (dims : Z) (fr : DataFrame)
  : result DataFrame :=
  match fr with
  | [] => Raise ValueError
  | _ :: _ =>
      rbind (mapM (fun row =>
                     calculate_score row (normalize_query query_emb dims)
                                     dims)
                  fr)
            (fun s => Ok (assign_scores fr s))
  end.

Definition funnel_round (query_emb : vector) (prune_ratio : float)
           (dims : Z) (fr : DataFrame) : result DataFrame :=
  rbind (score_frame query_emb dims fr) (fun scored =>
  let sorted := sort_values scored in
  rbind (prune_count prune_ratio (length sorted)) (fun k =>
  Ok (slice_to k sorted))).

Fixpoint funnel_rounds (query_emb : vector) (prune_ratio : float)
         (scales : list Z) (fr : DataFrame) : result DataFrame :=
  match scales with
  | [] => Ok fr
  | dims :: scales' =>
      rbind (funnel_round query_emb prune_ratio dims fr)
            (funnel_rounds query_emb prune_ratio scales')
  end.

(** What the caller's own frame holds after the call. *)
Definition caller_frame_after (query_emb : vector) (scales : list Z)
           (fr : DataFrame) : DataFrame :=
  match scales with
  | [] => fr
  | dims :: _ =>
      match score_frame query_emb dims fr with
      | Ok scored => scored
      | Raise _ => fr
      end
  end.

End FunnelSearch.

(** The frame a call returns, read from the heap it leaves. *)
Definition returned (out : result ref * Store) : result DataFrame :=
  match out with
  | (Ok df, st) => Ok (deref st df)
  | (Raise e, _) => Raise e
  end.

(** What identifies a candidate: its title and its embedding. *)
Definition candidate (row : Row) : String.string * vector :=
  (title row, embedding row).

(** ** Preconditions of the specification *)

(** [0 < prune_ratio < 1], for a Python float *)
Definition valid_prune_ratio (r : float) : bool :=
  F64.valid r && SFltb F64.zero r && SFltb r F64.one.


(** The [dims]-prefix of [x] is as long as the [dims]-prefix of the query:
    what [@] asks of its operands. *)
Definition same_shape (query_emb : vector) (dims : Z) (x : vector) : Prop :=
  length (slice_to dims x) = length (slice_to dims query_emb).


(** The number of rows is below [2^53]: [len(df)] is a Python float without
    rounding. *)
Definition addressable (fr : DataFrame) : Prop :=
  Z.of_nat (length fr) < 2 ^ 53.

(** The length of [l[:d]] for a list of [n] items. *)
Definition slice_size (d : Z) (n : nat) : nat :=
  if d <? 0 then Nat.min (n - Z.to_nat (- d)) n else Nat.min (Z.to_nat d) n.

(** The size of the frame after [rounds] rounds: each keeps the head of
    [int(prune_ratio * size)] rows. *)
Fixpoint size_after (prune_ratio : float) (rounds : nat) (size : nat)
  : result nat :=
  match rounds with
  | O => Ok size
  | S rounds' =>
      rbind (prune_count prune_ratio size) (fun k =>
      size_after prune_ratio rounds' (slice_size k size))
  end.

(** [size -> int(prune_ratio * size)], iterated [rounds] times *)
Fixpoint iter_prune (prune_ratio : float) (rounds : nat) (size : nat)
  : result nat :=
  match rounds with
  | O => Ok size
  | S rounds' =>
      rbind (prune_count prune_ratio size) (fun k =>
      iter_prune prune_ratio rounds' (Z.to_nat k))
  end.

(** ** A stable sort kind

    Insertion from the right, a row going before the rows it is at least as
    good as: the order of [kind="stable"]. *)

Fixpoint insert_desc (row : Row) (fr : DataFrame) : DataFrame :=
  match fr with
  | [] => [row]
  | r :: fr' =>
      if ge_nan_last (score_key row) (score_key r) then row :: fr
      else r :: insert_desc row fr'
  end.

Fixpoint stable_sort_desc (fr : DataFrame) : DataFrame :=
  match fr with
  | [] => []
  | row :: fr' => insert_desc row (stable_sort_desc fr')
  end.

(** ** Ranking by cosine similarity, as the specification words it

    L2-normalise both vectors (divide each by its Euclidean norm, which
    fails on a zero norm), take the dot product, and sort the candidates
    by that score in descending order, equal scores keeping their order.
    The arithmetic is that of the program: float32 with its reductions,
    the score read as a Python float. *)

Inductive spec_error : Type :=
| DegenerateVectorError
| DimensionMismatchError.

Inductive spec_result (A : Type) : Type :=
| Computed (a : A)
| Fails (e : spec_error).
Arguments Fails {A} e.

Definition spec_bind {A B} (r : spec_result A) (k : A -> spec_result B)
  : spec_result B :=
  match r with
  | Computed a => k a
  | Fails e => Fails e
  end.

Fixpoint spec_mapM {A B} (f : A -> spec_result B) (l : list A)
  : spec_result (list B) :=
  match l with
  | [] => Computed []
  | a :: l' =>
      spec_bind (f a) (fun b =>
      spec_bind (spec_mapM f l') (fun bs => Computed (b :: bs)))
  end.

Definition spec_l2_normalize (euclidean_norm : vector -> float) (x : vector)
  : spec_result vector :=
  let n := euclidean_norm x in
  if is_zero n then Fails DegenerateVectorError
  else Computed (map (fun a => F32.div a n) x).

Section Specification.
Context {R : Reductions}.

(** The norm of a candidate is torch's and the norm of the query numpy's,
    as in the program. *)
Definition spec_cosine_similarity (x y : vector) : spec_result float :=
  if Nat.eqb (length x) (length y) then
    spec_bind (spec_l2_normalize norm x) (fun x' =>
    spec_bind (spec_l2_normalize linalg_norm y) (fun y' =>
    Computed (item (sum_prod x' y'))))
  else Fails DimensionMismatchError.

Definition spec_sort_by_cosine (query_emb : vector) (candidates : DataFrame)
  : spec_result DataFrame :=
  spec_bind
    (spec_mapM
       (fun c =>
          spec_bind (spec_cosine_similarity (embedding c) query_emb)
                    (fun s => Computed (mkRow (title c) (embedding c)
                                              (Some s))))
       candidates)
    (fun scored => Computed (stable_sort_desc scored)).

End Specification.


(** ** Sample data *)

Definition f32 (n : Z) : float := F32.of_Z n.

(** 0.5 *)
Definition half : float := S754_finite false 4503599627370496 (-53).

Definition ones (n : nat) : vector := repeat (f32 1) n.

Definition row_a : Row := mkRow "A"%string [f32 3; f32 4] None.
Definition row_b : Row := mkRow "B"%string [f32 4; f32 3] None.
Definition row_zero : Row := mkRow "Z"%string [f32 0; f32 0] None.
Definition query_34 : vector := [f32 3; f32 4].
Definition query_zero : vector := [f32 0; f32 0].

(** A caller's heap: the frame passed to [funnel_search] at reference 0,
    and, in the second, another frame of the caller at reference 1. *)
Definition store_ab : Store := [[row_a; row_b]].
Definition store_ab_z : Store := [[row_a; row_b]; [row_zero]].
Definition store_8 : Store :=
  [[row_a; row_b; row_a; row_b; row_a; row_b; row_a; row_b]].



(** Four candidates with one embedding *)
Definition frame_tied : DataFrame :=
  [mkRow "A1"%string [f32 3; f32 4] None;
   mkRow "A2"%string [f32 3; f32 4] None;
   mkRow "A3"%string [f32 3; f32 4] None;
   mkRow "A4"%string [f32 3; f32 4] None].

(** ** The notebook around [funnel_search] *)

(** The defaults of [funnel_search]: [scales=[256, 512, 768]] and
    [prune_ratio=0.5]. *)
Definition default_scales : list Z := [256; 512; 768].
Definition default_prune_ratio : float := half.

(** *** [hits_to_dataframe]

    A hit [x] of a Milvus search carries under [x["entity"]] the output
    fields that the search asked for; a field that was not asked for is a
    missing key of that dict. *)
Record Entity : Type := mkEntity {
  entity_title : option String.string;
  entity_head_embedding : option vector;
  entity_embedding : option vector
}.

Record Hit : Type := mkHit {
  hit_id : Z;
  hit_distance : float;
  hit_entity : Entity
}.

(** A value, or the [KeyError] of a dict subscript with the key it names. *)
Inductive lookup (A : Type) : Type :=
| Found (a : A)
| KeyError (key : String.string).
Arguments KeyError {A} key.

Definition lookup_bind {A B} (r : lookup A) (k : A -> lookup B) : lookup B :=
  match r with
  | Found a => k a
  | KeyError key => KeyError key
  end.

Fixpoint lookup_mapM {A B} (f : A -> lookup B) (l : list A)
  : lookup (list B) :=
  match l with
  | [] => Found []
  | a :: l' =>
      lookup_bind (f a) (fun b =>
      lookup_bind (lookup_mapM f l') (fun bs => Found (b :: bs)))
  end.

(** [d[key]] *)
Definition getitem {A} (key : String.string) (field : option A) : lookup A :=
  match field with
  | Some a => Found a
  | None => KeyError key
  end.

(** The stored embeddings are float32 values, which [torch.tensor] keeps
    as they are; [from_records] makes one row per record, with the two
    columns of the records and no score column. *)
Definition hits_to_dataframe (hits : list Hit) : lookup DataFrame :=
  let rows := map hit_entity hits in
  lookup_mapM
    (fun x =>
       lookup_bind (getitem "title"%string (entity_title x)) (fun t =>
       lookup_bind (getitem "embedding"%string (entity_embedding x)) (fun e =>
       Found (mkRow t e None))))
    rows.

(** *** The cell that runs [funnel_search] for every query *)

(** [{"query": query, "results": funnel_search(df, query_emb)}] *)
Record QueryResults : Type := mkQueryResults {
  d_query : String.string;
  d_results : ref
}.

(** [zip] of three lists: as long as the shortest *)
Fixpoint zip3 {A B C} (a : list A) (b : list B) (c : list C)
  : list (A * B * C) :=
  match a, b, c with
  | x :: a', y :: b', z :: c' => (x, y, z) :: zip3 a' b' c'
  | _, _, _ => []
  end.

Section Notebook.
Context {kind : SortKind} {R : Reductions}.
Local Open Scope frame_scope.

(** The list comprehension: one call per tuple, first to last, each with
    the defaults of [funnel_search], all on the one heap. *)
Fixpoint funnel_search_each (jobs : list (String.string * ref * vector))
  : M (list QueryResults) :=
  match jobs with
  | [] => ret []
  | (query, df, query_emb) :: jobs' =>
      results <- funnel_search df query_emb default_scales
                               default_prune_ratio ;;
      rest <- funnel_search_each jobs' ;;
      ret (mkQueryResults query results :: rest)
  end.

Definition dfs_results (queries : list String.string) (dfs : list ref)
           (search_data : list vector) : M (list QueryResults) :=
  funnel_search_each (zip3 queries dfs search_data).

End Notebook.

(** [d["results"][:n]["title"]], the titles that the notebook prints *)
Definition shown_titles (n : Z) (fr : DataFrame) : list String.string :=
  map title (slice_to n fr).

(** *** The flipped embeddings

    [torch.flip(x, dims=[-1])] reverses the components of every
    embedding. *)
Definition flip (x : vector) : vector := rev x.

(** *** [format_docs] *)

Record Document : Type := mkDocument {
  page_content : String.string;
  metadata : list (String.string * String.string)
}.

(** The line feed *)
Definition LF : String.string :=
  String.String (Ascii.ascii_of_nat 10) String.EmptyString.

Definition format_docs (docs : list Document) : String.string :=
  String.concat (String.append LF LF) (map page_content docs).

(** *** The evaluation loop of the full text search notebook *)

Record Chunk : Type := mkChunk {
  chunk_index : Z;
  chunk_content : String.string
}.

Record GoldenDocument : Type := mkGoldenDocument {
  doc_uuid : String.string;
  doc_chunks : list Chunk
}.

Record QueryItem : Type := mkQueryItem {
  item_query : String.string;
  item_golden_chunk_uuids : list (String.string * Z);
  item_golden_documents : list GoldenDocument
}.

(** A dict returned by [HybridRetriever.search] *)
Record Retrieved : Type := mkRetrieved {
  retrieved_doc_id : String.string;
  retrieved_chunk_id : String.string;
  retrieved_content : String.string;
  retrieved_score : float
}.

(** A value, or the [ZeroDivisionError] of [/]. *)
Inductive quotient (A : Type) : Type :=
| Quotient (a : A)
| ZeroDivisionError.
Arguments ZeroDivisionError {A}.

(** [a / b] on two ints: the binary64 quotient (exact for operands below
    [2^53], which counts of chunks and queries are). *)
Definition true_divide (a b : Z) : quotient float :=
  if b =? 0 then ZeroDivisionError
  else Quotient (SFdiv F64.prec F64.emax (F64.of_Z a) (F64.of_Z b)).

Section Evaluation.
(** [str.strip] is Python's, and what [standard_retriever.search(query,
    mode=mode, k=5)] returns is what Milvus answers: the loop is embedded
    for every [strip] and every [search]. *)
Variable strip : String.string -> String.string.
Variable search : String.string -> list Retrieved.

Definition k : Z := 5.

(** [next((x for x in l if p(x)), None)] *)
Definition next {A} (p : A -> bool) (l : list A) : option A := find p l.

(** The first loop: the stripped contents of the golden chunks that can
    be found in the golden documents of the item. *)
Fixpoint golden_contents_of (golden_documents : list GoldenDocument)
         (golden_chunk_uuids : list (String.string * Z))
         (golden_contents : list String.string) : list String.string :=
  match golden_chunk_uuids with
  | [] => golden_contents
  | (uuid, index) :: rest =>
      let golden_contents' :=
        match next (fun doc => String.eqb (doc_uuid doc) uuid)
                   golden_documents with
        | Some golden_doc =>
            match next (fun chunk => chunk_index chunk =? index)
                       (doc_chunks golden_doc) with
            | Some golden_chunk =>
                golden_contents ++ [strip (chunk_content golden_chunk)]
            | None => golden_contents
            end
        | None => golden_contents
        end in
      golden_contents_of golden_documents rest golden_contents'
  end.

(** The second loop: one more chunk found for every golden content that
    one of the first [k] results has. *)
Fixpoint count_found (golden_contents : list String.string)
         (results : list Retrieved) (chunks_found : Z) : Z :=
  match golden_contents with
  | [] => chunks_found
  | golden_content :: rest =>
      count_found rest results
        (if existsb (fun doc =>
                       String.eqb (strip (retrieved_content doc))
                                  golden_content)
                    (slice_to k results)
         then chunks_found + 1
         else chunks_found)
  end.

(** One turn of the loop over the dataset. *)
Definition query_score (query_item : QueryItem) : quotient float :=
  let golden_contents :=
    golden_contents_of (item_golden_documents query_item)
                       (item_golden_chunk_uuids query_item) [] in
  let results := search (item_query query_item) in
  let chunks_found := count_found golden_contents results 0 in
  true_divide chunks_found (Z.of_nat (length golden_contents)).

(** The loop over the dataset, from the running total and count. *)
Fixpoint evaluate (dataset : list QueryItem) (total_query_score : float)
         (num_queries : Z) : quotient (float * Z) :=
  match dataset with
  | [] => Quotient (total_query_score, num_queries)
  | query_item :: dataset' =>
      match query_score query_item with
      | Quotient s =>
          evaluate dataset'
                   (SFadd F64.prec F64.emax total_query_score s)
                   (num_queries + 1)
      | ZeroDivisionError => ZeroDivisionError
      end
  end.

(** [total_query_score / num_queries] after the loop *)
Definition pass_at_k (dataset : list QueryItem) : quotient float :=
  match evaluate dataset F64.zero 0 with
  | Quotient (total, num_queries) =>
      if num_queries =? 0 then ZeroDivisionError
      else Quotient (SFdiv F64.prec F64.emax total (F64.of_Z num_queries))
  | ZeroDivisionError => ZeroDivisionError
  end.

End Evaluation.

(** *** Sample data of the notebook *)

(** Two hits of a search with
    [output_fields=["title", "head_embedding", "embedding"]] *)
Definition hits_ab : list Hit :=
  [mkHit 11 F64.one
         (mkEntity (Some "A"%string) (Some [f32 3]) (Some [f32 3; f32 4]));
   mkHit 12 half
         (mkEntity (Some "B"%string) (Some [f32 4]) (Some [f32 4; f32 3]))].

(** The frames of two searches, eight rows each *)
Definition store_8_8 : Store :=
  [[row_a; row_b; row_a; row_b; row_a; row_b; row_a; row_b];
   [row_b; row_b; row_b; row_a; row_zero; row_b; row_b; row_b]].

(** * Facts *)

(** ** The order of floats *)

Ltac cmp_cases :=
  repeat match goal with
  | |- context [Z.compare ?a ?b] => destruct (Z.compare_spec a b)
  | |- context [Pos.compare_cont Eq ?a ?b] =>
      change (Pos.compare_cont Eq a b) with (Pos.compare a b);
      destruct (Pos.compare_spec a b)
  end.

Lemma SFleb_total (a b : float) :
  is_nan a = false -> is_nan b = false -> SFleb a b = true \/ SFleb b a = true.
Proof.
  unfold SFleb.
  destruct a as [[]|[]| |[] ma ea], b as [[]|[]| |[] mb eb]; simpl;
    try discriminate; auto; intros _ _; cmp_cases; simpl; auto;
    try lia; subst; try lia.
Qed.

Lemma SFleb_trans (a b c : float) :
  SFleb a b = true -> SFleb b c = true -> SFleb a c = true.
Proof.
  unfold SFleb.
  destruct a as [[]|[]| |[] ma ea], b as [[]|[]| |[] mb eb],
           c as [[]|[]| |[] mc ec]; simpl;
    try discriminate; auto; cmp_cases; simpl; auto;
    try discriminate; try lia; subst; try lia.
Qed.


Lemma SFltb_finite_pos (m1 m2 : positive) (e1 e2 : Z) :
  SFltb (S754_finite false m1 e1) (S754_finite false m2 e2) = true ->
  e1 < e2 \/ (e1 = e2 /\ Zpos m1 < Zpos m2).
Proof.
  unfold SFltb, SFcompare.
  destruct (Z.compare_spec e1 e2) as [He|He|He]; try discriminate; auto.
  change (Pos.compare_cont Eq m1 m2) with (Pos.compare m1 m2).
  destruct (Pos.compare_spec m1 m2); try discriminate.
  intros _. right. split; [exact He|lia].
Qed.

Lemma ge_nan_last_total (a b : float) :
  ge_nan_last a b = true \/ ge_nan_last b a = true.
Proof.
  unfold ge_nan_last.
  destruct (is_nan a) eqn:Ha; [right; now rewrite orb_true_l|].
  destruct (is_nan b) eqn:Hb; [left; reflexivity|].
  simpl. destruct (SFleb_total a b Ha Hb) as [H|H]; rewrite H; auto.
Qed.

Lemma ge_nan_last_trans (a b c : float) :
  ge_nan_last a b = true -> ge_nan_last b c = true -> ge_nan_last a c = true.
Proof.
  unfold ge_nan_last.
  destruct (is_nan a), (is_nan b), (is_nan c); simpl;
    try discriminate; auto.
  intros H1 H2. exact (SFleb_trans _ _ _ H2 H1).
Qed.

(** ** The stable sort kind is a sort kind *)

Lemma insert_desc_perm (row : Row) (fr : DataFrame) :
  Permutation (row :: fr) (insert_desc row fr).
Proof.
  induction fr as [|r fr IH]; simpl; [reflexivity|].
  destruct (ge_nan_last (score_key row) (score_key r)); [reflexivity|].
  rewrite perm_swap. now apply perm_skip.
Qed.

Lemma stable_sort_desc_perm (fr : DataFrame) :
  Permutation fr (stable_sort_desc fr).
Proof.
  induction fr as [|row fr IH]; simpl; [constructor|].
  rewrite <- insert_desc_perm. now apply perm_skip.
Qed.

Lemma insert_desc_sorted (row : Row) (fr : DataFrame) :
  StronglySorted score_desc fr ->
  StronglySorted score_desc (insert_desc row fr).
Proof.
  induction 1 as [|r fr Hs IH Hall]; simpl.
  - repeat constructor.
  - destruct (ge_nan_last (score_key row) (score_key r)) eqn:Hge.
    + constructor; [now constructor|].
      constructor; [exact Hge|].
      eapply Forall_impl; [|exact Hall].
      intros r' Hr'. unfold score_desc in *.
      eapply ge_nan_last_trans; eassumption.
    + constructor; [exact IH|].
      eapply Permutation_Forall; [apply insert_desc_perm|].
      constructor; [|exact Hall].
      unfold score_desc.
      destruct (ge_nan_last_total (score_key row) (score_key r)); congruence.
Qed.

Lemma stable_sort_desc_sorted (fr : DataFrame) :
  StronglySorted score_desc (stable_sort_desc fr).
Proof.
  induction fr as [|row fr IH]; simpl; [constructor|].
  now apply insert_desc_sorted.
Qed.

#[export] Instance stable_kind : SortKind := {
  sort_values := stable_sort_desc;
  sort_values_perm := stable_sort_desc_perm;
  sort_values_desc := stable_sort_desc_sorted
}.

(** Another sort kind: rows of equal score come out in the reverse of
    their order in the frame. *)
Lemma reversed_sort_perm (fr : DataFrame) :
  Permutation fr (stable_sort_desc (rev fr)).
Proof.
  etransitivity; [apply Permutation_rev|apply stable_sort_desc_perm].
Qed.

Definition reversed_kind : SortKind :=
  Build_SortKind (fun fr => stable_sort_desc (rev fr)) reversed_sort_perm
                 (fun fr => stable_sort_desc_sorted (rev fr)).

(** ** Rounding of binary64 products

    [int(prune_ratio * len(df))] lies between 0 and [len(df)] when
    [0 < prune_ratio < 1]: the product is below [len(df)] and rounding
    moves it by less than one. *)

Lemma digits2_pos_bounds (m : positive) :
  2 ^ (Zpos (digits2_pos m) - 1) <= Zpos m < 2 ^ Zpos (digits2_pos m).
Proof.
  induction m as [m IH|m IH|]; cbn [digits2_pos].
  - rewrite Pos2Z.inj_succ.
    replace (Z.succ (Zpos (digits2_pos m)) - 1) with (Z.succ (Zpos (digits2_pos m) - 1)) by lia.
    rewrite !Z.pow_succ_r by lia. lia.
  - rewrite Pos2Z.inj_succ.
    replace (Z.succ (Zpos (digits2_pos m)) - 1) with (Z.succ (Zpos (digits2_pos m) - 1)) by lia.
    rewrite !Z.pow_succ_r by lia. lia.
  - simpl. lia.
Qed.

Lemma shr_1_m (mrs : shr_record) :
  0 <= shr_m mrs -> shr_m (shr_1 mrs) = shr_m mrs / 2.
Proof.
  destruct mrs as [m r s]. cbn [shr_m shr_1].
  destruct m as [|[p|p|]|p]; cbn [shr_m]; intros H; try lia; try reflexivity.
  - apply Z.div_unique with 1; lia.
  - apply Z.div_unique with 0; lia.
Qed.

Lemma pow2_xO (p : positive) : 2 ^ Zpos p~0 = 2 ^ Zpos p * 2 ^ Zpos p.
Proof. rewrite <- Z.pow_add_r by lia. f_equal. lia. Qed.

Lemma pow2_xI (p : positive) : 2 ^ Zpos p~1 = 2 * (2 ^ Zpos p * 2 ^ Zpos p).
Proof.
  rewrite <- Z.pow_add_r, <- Z.pow_succ_r by lia. f_equal. lia.
Qed.

Lemma iter_pos_shr_1_m (p : positive) :
  forall mrs, 0 <= shr_m mrs ->
  shr_m (iter_pos shr_1 p mrs) = shr_m mrs / 2 ^ Zpos p.
Proof.
  induction p as [p IH|p IH|]; intros mrs H; cbn [iter_pos].
  - assert (H1 : 0 <= shr_m (shr_1 mrs)) by (rewrite shr_1_m by lia; apply Z.div_pos; lia).
    assert (H2 : 0 <= shr_m (iter_pos shr_1 p (shr_1 mrs)))
      by (rewrite IH by lia; apply Z.div_pos; lia).
    rewrite IH, IH, shr_1_m by lia.
    rewrite !Z.div_div by lia. now rewrite pow2_xI.
  - assert (H2 : 0 <= shr_m (iter_pos shr_1 p mrs))
      by (rewrite IH by lia; apply Z.div_pos; lia).
    rewrite IH, IH by lia.
    rewrite !Z.div_div by lia. now rewrite pow2_xO.
  - rewrite shr_1_m by lia. reflexivity.
Qed.

Lemma shr_m_e (mrs : shr_record) (e n : Z) :
  0 <= shr_m mrs ->
  shr_m (fst (shr mrs e n)) = shr_m mrs / 2 ^ Z.max 0 n /\
  snd (shr mrs e n) = e + Z.max 0 n.
Proof.
  intros H. destruct n as [|p|p]; simpl.
  - rewrite Z.div_1_r. split; lia.
  - rewrite iter_pos_shr_1_m by lia. split; reflexivity.
  - rewrite Z.div_1_r. split; lia.
Qed.

Lemma fexp64 (e : Z) : fexp 53 1024 e = Z.max (e - 53) (-1074).
Proof. reflexivity. Qed.

Lemma Zdigits2_le (m e : Z) :
  0 <= m -> m < 2 ^ e -> 0 <= e -> Zdigits2 m <= e.
Proof.
  intros Hm Hlt He. destruct m as [|p|p]; simpl; try lia.
  destruct (digits2_pos_bounds p) as [Hlo _].
  assert (2 ^ (Zpos (digits2_pos p) - 1) < 2 ^ e) by lia.
  apply Z.pow_lt_mono_r_iff in H; lia.
Qed.

Lemma round_nearest_even_bounds (m : Z) (l : location) :
  m <= round_nearest_even m l <= m + 1.
Proof.
  destruct l as [|[]]; simpl; try lia. destruct (Z.even m); lia.
Qed.

Lemma pow2_split (a b : Z) : 0 <= a -> 0 <= b -> 2 ^ (a + b) = 2 ^ a * 2 ^ b.
Proof. intros. now apply Z.pow_add_r. Qed.

Lemma first_stage (P : positive) (E N : Z) :
  E <= 0 -> 0 < N < 2 ^ 53 -> Zpos P < N * 2 ^ (- E) ->
  forall mrs' e', shr_fexp 53 1024 (Zpos P) E loc_Exact = (mrs', e') ->
  let m1 := round_nearest_even (shr_m mrs') (loc_of_shr_record mrs') in
  e' <= 0 /\ 0 <= m1 <= N * 2 ^ (- e').
Proof.
  intros HE HN HP mrs' e' Hshr m1. subst m1.
  unfold shr_fexp in Hshr. rewrite fexp64 in Hshr.
  cbn [shr_record_of_loc] in Hshr.
  assert (Hd : Zdigits2 (Zpos P) + E <= 53).
  { assert (Zdigits2 (Zpos P) <= 53 - E); [|lia].
    apply Zdigits2_le; try lia.
    replace (53 - E) with (53 + - E) by lia.
    rewrite pow2_split by lia.
    assert (0 < 2 ^ (- E)) by (apply Z.pow_pos_nonneg; lia). nia. }
  set (n1 := Z.max (Zdigits2 (Zpos P) + E - 53) (-1074) - E) in Hshr.
  destruct (Z_le_gt_dec n1 0) as [Hn|Hn].
  - assert (Hid : (mrs', e') = (Build_shr_record (Zpos P) false false, E)).
    { rewrite <- Hshr. destruct n1; try lia; reflexivity. }
    inversion Hid; subst. cbn. lia.
  - pose proof (shr_m_e (Build_shr_record (Zpos P) false false) E n1) as [Hm He].
    { cbn; lia. }
    rewrite Hshr in Hm, He. cbn [fst snd shr_m] in Hm, He.
    rewrite Z.max_r in Hm, He by lia.
    assert (He0 : e' <= 0) by lia.
    split; [exact He0|].
    pose proof (round_nearest_even_bounds (shr_m mrs') (loc_of_shr_record mrs')) as Hr.
    assert (H2 : 0 < 2 ^ n1) by (apply Z.pow_pos_nonneg; lia).
    assert (H0 : 0 <= shr_m mrs') by (rewrite Hm; apply Z.div_pos; lia).
    split; [lia|].
    assert (Hlt : shr_m mrs' < N * 2 ^ (- e')); [|lia].
    rewrite Hm. apply Z.div_lt_upper_bound; [lia|].
    replace (- E) with (n1 + - e') in HP by lia.
    rewrite pow2_split in HP by lia. lia.
Qed.

Lemma second_stage (m1 e' N : Z) (s : bool) :
  e' <= 0 -> 0 < N < 2 ^ 53 -> 0 <= m1 <= N * 2 ^ (- e') ->
  forall mrs'' e'', shr_fexp 53 1024 m1 e' loc_Exact = (mrs'', e'') ->
  exists k,
    int_of_float
      match shr_m mrs'' with
      | Z0 => S754_zero s
      | Zpos m => if Z.leb e'' (1024 - 53) then S754_finite s m e''
                  else S754_infinity s
      | Zneg _ => S754_nan
      end = Ok (cond_Zopp s k) /\ 0 <= k <= N.
Proof.
  intros He HN Hm1 mrs'' e'' Hshr.
  unfold shr_fexp in Hshr. rewrite fexp64 in Hshr.
  cbn [shr_record_of_loc] in Hshr.
  assert (Hp : 0 < 2 ^ (- e')) by (apply Z.pow_pos_nonneg; lia).
  assert (Hd : Zdigits2 m1 + e' <= 53).
  { assert (Zdigits2 m1 <= 53 - e'); [|lia].
    apply Zdigits2_le; try lia.
    replace (53 - e') with (53 + - e') by lia.
    rewrite pow2_split by lia. nia. }
  set (n2 := Z.max (Zdigits2 m1 + e' - 53) (-1074) - e') in Hshr.
  pose proof (shr_m_e (Build_shr_record m1 false false) e' n2) as [Hm He2].
  { cbn; lia. }
  rewrite Hshr in Hm, He2. cbn [fst snd shr_m] in Hm, He2.
  assert (He'' : e'' <= 0) by lia.
  assert (Hs : 0 < 2 ^ Z.max 0 n2) by (apply Z.pow_pos_nonneg; lia).
  assert (H0 : 0 <= shr_m mrs'') by (rewrite Hm; apply Z.div_pos; lia).
  destruct (shr_m mrs'') as [|m|m] eqn:Hmm; try lia.
  - exists 0. cbn. destruct s; cbn; split; auto; lia.
  - replace (e'' <=? 1024 - 53) with true by (symmetry; apply Z.leb_le; lia).
    exists (Z.shiftl (Zpos m) e''). split; [reflexivity|].
    rewrite Z.shiftl_div_pow2 by lia.
    rewrite Hm, Z.div_div by lia.
    rewrite <- pow2_split by lia.
    replace (Z.max 0 n2 + - e'') with (- e') by lia.
    split; [apply Z.div_pos; lia|].
    apply Z.div_le_upper_bound; lia.
Qed.

Lemma binary_round_aux_small (P : positive) (E N : Z) (s : bool) :
  E <= 0 -> 0 < N < 2 ^ 53 -> Zpos P < N * 2 ^ (- E) ->
  exists k,
    int_of_float (binary_round_aux 53 1024 s (Zpos P) E loc_Exact)
    = Ok (cond_Zopp s k) /\ 0 <= k <= N.
Proof.
  intros HE HN HP. unfold binary_round_aux.
  destruct (shr_fexp 53 1024 (Zpos P) E loc_Exact) as [mrs' e'] eqn:H1.
  destruct (@first_stage P E N HE HN HP mrs' e' H1) as [He' Hm1].
  destruct (shr_fexp 53 1024 _ e' loc_Exact) as [mrs'' e''] eqn:H2.
  exact (@second_stage _ e' N s He' HN Hm1 mrs'' e'' H2).
Qed.

Lemma binary_round_aux_exact (P : positive) (E : Z) (s : bool) :
  fexp 53 1024 (Zpos (digits2_pos P) + E) = E -> E <= 971 ->
  binary_round_aux 53 1024 s (Zpos P) E loc_Exact = S754_finite s P E.
Proof.
  intros Hc HE. unfold binary_round_aux, shr_fexp. cbn [Zdigits2].
  rewrite Hc, Z.sub_diag. cbn [shr shr_record_of_loc shr_m loc_of_shr_record
    round_nearest_even Zdigits2].
  rewrite Hc, Z.sub_diag. cbn [shr shr_record_of_loc shr_m].
  replace (E <=? 1024 - 53) with true by (symmetry; apply Z.leb_le; lia).
  reflexivity.
Qed.

Lemma iter_xO_digits (p k : positive) :
  digits2_pos (Pos.iter xO p k) = (digits2_pos p + k)%positive.
Proof.
  induction k as [|k IH] using Pos.peano_ind.
  - cbn. lia.
  - rewrite Pos.iter_succ. cbn [digits2_pos]. rewrite IH. lia.
Qed.

Lemma iter_xO_value (p k : positive) :
  Zpos (Pos.iter xO p k) = Zpos p * 2 ^ Zpos k.
Proof.
  induction k as [|k IH] using Pos.peano_ind.
  - cbn. lia.
  - rewrite Pos.iter_succ, Pos2Z.inj_xO, IH, Pos2Z.inj_succ, Z.pow_succ_r by lia.
    lia.
Qed.

Lemma of_Z_pos (p : positive) :
  Zpos p < 2 ^ 53 ->
  exists my ey,
    binary_normalize 53 1024 (Zpos p) 0 false = S754_finite false my ey /\
    ey <= 0 /\ Zpos my = Zpos p * 2 ^ (- ey).
Proof.
  intros Hp. unfold binary_normalize, binary_round.
  assert (Hd : Zpos (digits2_pos p) <= 53).
  { change (Zdigits2 (Zpos p) <= 53). apply Zdigits2_le; lia. }
  unfold shl_align. rewrite fexp64.
  rewrite Z.max_l by lia.
  destruct (Zpos (digits2_pos p) + 0 - 53 - 0) as [|k|k] eqn:Hk; try lia.
  - exists p, 0. split; [|split; [lia|cbn; lia]].
    apply binary_round_aux_exact; [rewrite fexp64|]; lia.
  - exists (Pos.iter xO p k), (Zpos (digits2_pos p) + 0 - 53).
    split; [|split; [lia|]].
    + apply binary_round_aux_exact; [rewrite fexp64, iter_xO_digits|]; lia.
    + rewrite iter_xO_value. do 2 f_equal. lia.
Qed.

Lemma pow2_52 : 2 ^ 52 = 4503599627370496.
Proof. vm_compute. reflexivity. Qed.

Lemma valid_prune_ratio_inv (r : float) :
  valid_prune_ratio r = true ->
  exists m e, r = S754_finite false m e /\ e < 0 /\ Zpos m < 2 ^ (- e).
Proof.
  unfold valid_prune_ratio, F64.valid, F64.zero, F64.prec, F64.emax. intros H.
  apply andb_prop in H as [H Hlt1]. apply andb_prop in H as [Hv Hlt0].
  destruct r as [s|s| |s m e]; try discriminate.
  - destruct s; discriminate.
  - destruct s; [discriminate|].
    exists m, e. split; [reflexivity|].
    unfold valid_binary, bounded, canonical_mantissa in Hv.
    apply andb_prop in Hv as [Hc _]. apply Z.eqb_eq in Hc.
    rewrite fexp64 in Hc.
    assert (Hm : Zpos m < 2 ^ 53).
    { destruct (digits2_pos_bounds m) as [_ Hhi].
      eapply Z.lt_le_trans; [exact Hhi|].
      apply Z.pow_le_mono_r; lia. }
    unfold F64.one in Hlt1.
    apply SFltb_finite_pos in Hlt1 as [He|[He Hlt]].
    + split; [lia|].
      eapply Z.lt_le_trans; [exact Hm|].
      apply Z.pow_le_mono_r; lia.
    + subst e. split; [lia|].
      change (- -52) with 52. rewrite pow2_52. exact Hlt.
Qed.

Lemma prune_count_bounds (r : float) (n : nat) :
  valid_prune_ratio r = true -> Z.of_nat n < 2 ^ 53 ->
  exists k, prune_count r n = Ok k /\ 0 <= k <= Z.of_nat n.
Proof.
  intros Hr Hn.
  destruct (valid_prune_ratio_inv r Hr) as (mr & er & -> & Her & Hmr).
  unfold prune_count, F64.mul, F64.of_Z, F64.prec, F64.emax.
  destruct (Z.of_nat n) as [|p|p] eqn:Hp; try lia.
  - exists 0. cbn. split; [reflexivity|lia].
  - destruct (of_Z_pos Hn) as (my & ey & -> & Hey & Hmy).
    cbn [SFmul xorb].
    destruct (@binary_round_aux_small (mr * my) (er + ey) (Zpos p) false)
      as (k & Hk & Hb); try lia.
    + rewrite Pos2Z.inj_mul, Hmy.
      replace (- (er + ey)) with (- er + - ey) by lia.
      rewrite pow2_split by lia.
      assert (0 < 2 ^ (- ey)) by (apply Z.pow_pos_nonneg; lia).
      nia.
    + exists k. split; [exact Hk|lia].
Qed.

Lemma iter_pos_shr_1_exact (k : positive) :
  forall p,
  iter_pos shr_1 k (Build_shr_record (Zpos (Pos.iter xO p k)) false false)
  = Build_shr_record (Zpos p) false false.
Proof.
  induction k as [k IH|k IH|]; intros p; cbn [iter_pos Pos.iter shr_1 orb].
  - now rewrite !IH.
  - now rewrite !IH.
  - reflexivity.
Qed.

Lemma of_Z_one : F64.of_Z 1 = F64.one.
Proof. vm_compute. reflexivity. Qed.

Lemma mul_one_exact (m : positive) (e : Z) :
  F64.valid (S754_finite false m e) = true ->
  F64.mul (S754_finite false m e) F64.one = S754_finite false m e.
Proof.
  unfold F64.valid, F64.mul, F64.prec, F64.emax.
  unfold valid_binary, bounded, canonical_mantissa. intros Hv.
  apply andb_prop in Hv as [Hc He]. apply Z.eqb_eq in Hc. apply Z.leb_le in He.
  unfold F64.one. cbn [SFmul xorb].
  assert (HP : (m * 4503599627370496)%positive = Pos.iter xO m 52).
  { apply Pos2Z.inj. rewrite iter_xO_value, Pos2Z.inj_mul, pow2_52.
    reflexivity. }
  rewrite HP. unfold binary_round_aux.
  assert (H1 : shr_fexp 53 1024 (Zpos (Pos.iter xO m 52)) (e + -52) loc_Exact
               = (Build_shr_record (Zpos m) false false, e)).
  { unfold shr_fexp. cbn [Zdigits2 shr_record_of_loc].
    rewrite iter_xO_digits.
    replace (Zpos (digits2_pos m + 52) + (e + -52))
      with (Zpos (digits2_pos m) + e) by lia.
    rewrite Hc. replace (e - (e + -52)) with 52 by lia.
    cbn [shr]. rewrite iter_pos_shr_1_exact. f_equal. lia. }
  rewrite H1. cbn [shr_m loc_of_shr_record round_nearest_even].
  unfold shr_fexp. cbn [Zdigits2 shr_record_of_loc].
  rewrite Hc, Z.sub_diag. cbn [shr shr_m].
  replace (e <=? 1024 - 53) with true by (symmetry; apply Z.leb_le; exact He).
  reflexivity.
Qed.

Lemma prune_count_one (r : float) :
  valid_prune_ratio r = true -> prune_count r 1 = Ok 0.
Proof.
  intros Hr.
  destruct (valid_prune_ratio_inv r Hr) as (m & e & -> & He & Hm).
  unfold valid_prune_ratio in Hr.
  apply andb_prop in Hr as [Hr _]. apply andb_prop in Hr as [Hv _].
  unfold prune_count.
  change (Z.of_nat 1) with 1. rewrite of_Z_one.
  rewrite (mul_one_exact _ _ Hv). cbn [int_of_float cond_Zopp].
  rewrite Z.shiftl_div_pow2 by lia.
  rewrite Z.div_small by lia. reflexivity.
Qed.

(** ** Slices, [mapM] and the score column *)

Lemma slice_to_length_le {A} (d : Z) (l : list A) :
  (length (slice_to d l) <= length l)%nat.
Proof.
  unfold slice_to. destruct (d <? 0); rewrite length_firstn; lia.
Qed.

Lemma slice_to_size {A} (d : Z) (l : list A) :
  length (slice_to d l) = slice_size d (length l).
Proof.
  unfold slice_to, slice_size. destruct (d <? 0); apply length_firstn.
Qed.

Lemma slice_to_firstn {A} (d : Z) (l : list A) :
  0 <= d -> slice_to d l = firstn (Z.to_nat d) l.
Proof.
  intros H. unfold slice_to.
  destruct (Z.ltb_spec d 0); [lia|reflexivity].
Qed.


Lemma slice_to_all {A} (d : Z) (l : list A) :
  Z.of_nat (length l) <= d -> slice_to d l = l.
Proof.
  intros H. rewrite slice_to_firstn by lia. apply firstn_all2. lia.
Qed.

Lemma firstn_incl {A} (n : nat) (l : list A) : incl (firstn n l) l.
Proof.
  revert l; induction n as [|n IH]; intros [|a l] x; simpl; try tauto.
  intros [->|H]; [now left|right; now apply IH].
Qed.

Lemma slice_to_incl {A} (d : Z) (l : list A) : incl (slice_to d l) l.
Proof. unfold slice_to. destruct (d <? 0); apply firstn_incl. Qed.

Lemma mapM_length {A B} (f : A -> result B) (l : list A) (bs : list B) :
  mapM f l = Ok bs -> length bs = length l.
Proof.
  revert bs; induction l as [|a l IH]; simpl; intros bs H.
  - now inversion H.
  - destruct (f a) as [b|e]; simpl in H; [|discriminate].
    destruct (mapM f l) as [bs'|e]; simpl in H; [|discriminate].
    inversion H; subst. simpl. f_equal. now apply IH.
Qed.

Lemma mapM_ok {A B} (f : A -> result B) (l : list A) :
  (forall a, In a l -> exists b, f a = Ok b) -> exists bs, mapM f l = Ok bs.
Proof.
  induction l as [|a l IH]; simpl; intros H; [now exists []|].
  destruct (H a) as [b Hb]; [now left|]. rewrite Hb. simpl.
  destruct IH as [bs Hbs]; [intros a' Ha'; apply H; now right|].
  rewrite Hbs. simpl. now exists (b :: bs).
Qed.

(** When every failure of [f] is the same exception, one failing row makes
    the whole [apply] fail with it. *)
Lemma mapM_raise {A B} (f : A -> result B) (l : list A) (e : error) :
  (forall a e', f a = Raise e' -> e' = e) ->
  (exists a, In a l /\ f a = Raise e) -> mapM f l = Raise e.
Proof.
  intros Hone. induction l as [|a l IH]; simpl; intros (a0 & Hin & Ha0).
  - contradiction.
  - destruct (f a) as [b|e'] eqn:Hfa; simpl.
    + destruct Hin as [->|Hin]; [congruence|].
      rewrite IH; [reflexivity|]. now exists a0.
    + f_equal. now apply (Hone a).
Qed.


Lemma assign_scores_length (fr : DataFrame) (s : list float) :
  length s = length fr -> length (assign_scores fr s) = length fr.
Proof.
  intros H. unfold assign_scores. rewrite length_map, length_combine. lia.
Qed.

Lemma assign_scores_candidate (fr : DataFrame) (s : list float) :
  length s = length fr ->
  map candidate (assign_scores fr s) = map candidate fr.
Proof.
  unfold assign_scores. revert s; induction fr as [|row fr IH];
    intros [|x s]; simpl; intros H; try discriminate; [reflexivity|].
  f_equal. apply IH. lia.
Qed.


(** ** The heap *)

Lemma update_length (df : ref) (fr : DataFrame) (st : Store) :
  length (update df fr st) = length st.
Proof.
  revert df; induction st as [|fr0 st IH]; intros [|df]; simpl; auto.
Qed.

Lemma deref_update_same (df : ref) (fr : DataFrame) (st : Store) :
  (df < length st)%nat -> deref (update df fr st) df = fr.
Proof.
  unfold deref. revert df; induction st as [|fr0 st IH]; intros [|df]; simpl;
    try lia; auto.
  intros H. apply IH. lia.
Qed.

Lemma deref_update_other (df l : ref) (fr : DataFrame) (st : Store) :
  l <> df -> deref (update df fr st) l = deref st l.
Proof.
  unfold deref. revert df l; induction st as [|fr0 st IH];
    intros [|df] [|l]; simpl; try congruence; auto.
Qed.

Lemma deref_alloc_old (l : ref) (fr : DataFrame) (st : Store) :
  (l < length st)%nat -> deref (st ++ [fr]) l = deref st l.
Proof. intros H. unfold deref. now apply app_nth1. Qed.

Lemma deref_alloc_new (fr : DataFrame) (st : Store) :
  deref (st ++ [fr]) (length st) = fr.
Proof.
  unfold deref. rewrite app_nth2 by lia. now rewrite Nat.sub_diag.
Qed.

Section Run.
Context {kind : SortKind} {R : Reductions}.
Variables (query_emb : vector) (prune_ratio : float).

(** One turn of the loop, on the heap: the scores are written into the
    frame [df] refers to; the sorted frame and its head are new objects. *)
Lemma funnel_search_body_run (df : ref) (dims : Z) (st : Store) :
  (df < length st)%nat ->
  funnel_search_body df query_emb dims prune_ratio st =
  match score_frame query_emb dims (deref st df) with
  | Raise e => (Raise e, st)
  | Ok scored =>
      let st2 := update df scored st ++ [sort_values scored] in
      match prune_count prune_ratio (length (sort_values scored)) with
      | Raise e => (Raise e, st2)
      | Ok k => (Ok (S (length st)), st2 ++ [slice_to k (sort_values scored)])
      end
  end.
Proof.
  intros Hdf. unfold score_frame, funnel_search_body.
  unfold bind, df_apply, df_setitem_scores, df_sort_values, df_len, df_head,
    bind, read, write, alloc, lift, ret.
  destruct (deref st df) as [|row fr] eqn:Hfr; [reflexivity|].
  destruct (mapM _ (row :: fr)) as [s|e]; cbn [rbind]; [|reflexivity].
  rewrite Hfr.
  rewrite deref_update_same by exact Hdf.
  rewrite deref_alloc_new.
  destruct (prune_count _ _); [|reflexivity].
  rewrite length_app, update_length. cbn [length].
  repeat f_equal. lia.
Qed.

Lemma returned_body (df : ref) (dims : Z) (st : Store) :
  (df < length st)%nat ->
  returned (funnel_search_body df query_emb dims prune_ratio st)
  = funnel_round query_emb prune_ratio dims (deref st df).
Proof.
  intros Hdf. rewrite funnel_search_body_run by exact Hdf.
  unfold funnel_round.
  destruct (score_frame query_emb dims (deref st df)) as [scored|e];
    cbn [rbind]; [|reflexivity].
  cbv zeta.
  destruct (prune_count _ _) as [k|e]; cbn [rbind returned]; [|reflexivity].
  f_equal.
  replace (S (length st))
    with (length (update df scored st ++ [sort_values scored]))
    by (rewrite length_app, update_length; simpl; lia).
  apply deref_alloc_new.
Qed.

(** The heap after a call: the returned reference holds the rows that the
    rounds compute, the caller's frame holds the first round's scores, and
    no other frame of the caller has changed. *)
Lemma funnel_search_run (scales : list Z) :
  forall (df : ref) (st : Store), (df < length st)%nat ->
  exists res st',
    funnel_search df query_emb scales prune_ratio st = (res, st') /\
    (length st <= length st')%nat /\
    (forall l, (l < length st)%nat -> l <> df -> deref st' l = deref st l) /\
    deref st' df = caller_frame_after query_emb scales (deref st df) /\
    match funnel_rounds query_emb prune_ratio scales (deref st df) with
    | Ok out => exists l, res = Ok l /\ (l < length st')%nat /\ deref st' l = out
    | Raise e => res = Raise e
    end.
Proof.
  induction scales as [|dims scales IH]; intros df st Hdf.
  - exists (Ok df), st. simpl. repeat split; auto. now exists df.
  - cbn [funnel_search funnel_rounds caller_frame_after]. unfold bind.
    rewrite funnel_search_body_run by exact Hdf. unfold funnel_round.
    destruct (score_frame query_emb dims (deref st df)) as [scored|e];
      cbn [rbind].
    2:{ exists (Raise e), st. repeat split; auto. }
    cbv zeta.
    set (st1 := update df scored st).
    assert (Hlen1 : length st1 = length st) by apply update_length.
    set (st2 := st1 ++ [sort_values scored]).
    assert (Hlen2 : length st2 = S (length st))
      by (unfold st2; rewrite length_app; simpl; lia).
    assert (Hold2 : forall l, (l < length st)%nat ->
              deref st2 l = deref st1 l)
      by (intros l Hl; unfold st2; apply deref_alloc_old; lia).
    destruct (prune_count prune_ratio (length (sort_values scored)))
      as [k|e]; cbn [rbind].
    2:{ exists (Raise e), st2. repeat split; auto; try lia.
        - intros l Hl Hne. rewrite Hold2 by exact Hl.
          unfold st1. now apply deref_update_other.
        - rewrite Hold2 by exact Hdf. unfold st1.
          now apply deref_update_same. }
    set (st3 := st2 ++ [slice_to k (sort_values scored)]).
    assert (Hlen3 : length st3 = S (S (length st)))
      by (unfold st3; rewrite length_app; simpl; lia).
    destruct (IH (S (length st)) st3)
      as (res & st' & Hrun & Hle & Hframe & _ & Hres); [lia|].
    assert (Hnew : deref st3 (S (length st))
                   = slice_to k (sort_values scored))
      by (rewrite <- Hlen2; apply deref_alloc_new).
    exists res, st'. rewrite Hrun. repeat split; try lia.
    + intros l Hl Hne. rewrite Hframe by lia.
      unfold st3. rewrite deref_alloc_old by lia.
      rewrite Hold2 by exact Hl. unfold st1. now apply deref_update_other.
    + rewrite Hframe by lia.
      unfold st3. rewrite deref_alloc_old by lia.
      rewrite Hold2 by exact Hdf. unfold st1. now apply deref_update_same.
    + rewrite Hnew in Hres. exact Hres.
Qed.

(** The frame a call returns is the one the rounds compute from the
    caller's frame. *)
Lemma returned_funnel_search (scales : list Z) (df : ref) (st : Store) :
  (df < length st)%nat ->
  returned (funnel_search df query_emb scales prune_ratio st)
  = funnel_rounds query_emb prune_ratio scales (deref st df).
Proof.
  intros Hdf.
  destruct (funnel_search_run scales st Hdf)
    as (res & st' & Hrun & _ & _ & _ & Hres).
  rewrite Hrun.
  destruct (funnel_rounds query_emb prune_ratio scales (deref st df)).
  - destruct Hres as (l & -> & _ & <-). reflexivity.
  - subst res. reflexivity.
Qed.

End Run.

(** ** The rounds *)

Lemma candidates_Forall (P : vector -> Prop) (fr out : DataFrame) :
  incl (map candidate out) (map candidate fr) ->
  Forall (fun row => P (embedding row)) fr ->
  Forall (fun row => P (embedding row)) out.
Proof.
  intros Hincl Hfr. apply Forall_forall. intros row' Hin.
  assert (Hc : In (candidate row') (map candidate fr))
    by (apply Hincl; now apply in_map).
  apply in_map_iff in Hc as (row & Heq & Hrow).
  rewrite Forall_forall in Hfr. specialize (Hfr row Hrow).
  unfold candidate in Heq. injection Heq as Ht He. now rewrite <- He.
Qed.

Section Scoring.
Context {R : Reductions}.

Lemma F_normalize_length (x : vector) : length (F_normalize x) = length x.
Proof. unfold F_normalize. apply length_map. Qed.

Lemma normalize_query_length (q : vector) (dims : Z) :
  length (normalize_query q dims) = length (slice_to dims q).
Proof. unfold normalize_query. apply length_map. Qed.

(** The only exception of [calculate_score] is the size mismatch of [@]. *)
Lemma calculate_score_raises (row : Row) (q : vector) (dims : Z) (e : error) :
  calculate_score row q dims = Raise e -> e = RuntimeError.
Proof.
  unfold calculate_score, matmul.
  destruct (Nat.eqb _ _); simpl; [discriminate|congruence].
Qed.

Lemma calculate_score_shape (row : Row) (q : vector) (dims : Z) :
  length (slice_to dims (embedding row)) = length q ->
  calculate_score row q dims
  = Ok (item (sum_prod (F_normalize (slice_to dims (embedding row))) q)).
Proof.
  intros H. unfold calculate_score, matmul.
  rewrite F_normalize_length, H, Nat.eqb_refl. reflexivity.
Qed.

Lemma calculate_score_mismatch (row : Row) (q : vector) (dims : Z) :
  length (slice_to dims (embedding row)) <> length q ->
  calculate_score row q dims = Raise RuntimeError.
Proof.
  intros H. unfold calculate_score, matmul.
  rewrite F_normalize_length.
  destruct (Nat.eqb_spec (length (slice_to dims (embedding row))) (length q));
    [contradiction|reflexivity].
Qed.


End Scoring.

Section Rounds.
Context {kind : SortKind} {R : Reductions}.
Variables (query_emb : vector) (prune_ratio : float).

Lemma sort_values_length (fr : DataFrame) :
  length (sort_values fr) = length fr.
Proof. symmetry. apply Permutation_length, sort_values_perm. Qed.

Lemma score_frame_scores (dims : Z) (fr scored : DataFrame) :
  score_frame query_emb dims fr = Ok scored ->
  exists s,
    mapM (fun row =>
            calculate_score row (normalize_query query_emb dims) dims) fr
    = Ok s /\ length s = length fr /\ scored = assign_scores fr s.
Proof.
  unfold score_frame. intros H.
  destruct fr as [|row fr]; [discriminate|].
  destruct (mapM _ (row :: fr)) as [s|e] eqn:Hs; cbn [rbind] in H;
    [|discriminate].
  inversion H; subst. exists s. repeat split.
  eapply mapM_length; exact Hs.
Qed.

Lemma score_frame_nil (dims : Z) :
  score_frame query_emb dims [] = Raise ValueError.
Proof. reflexivity. Qed.

Lemma score_frame_cons (dims : Z) (row : Row) (fr : DataFrame) :
  score_frame query_emb dims (row :: fr)
  = rbind (mapM (fun row =>
                   calculate_score row (normalize_query query_emb dims) dims)
                (row :: fr))
          (fun s => Ok (assign_scores (row :: fr) s)).
Proof. reflexivity. Qed.

Lemma score_frame_candidates (dims : Z) (fr scored : DataFrame) :
  score_frame query_emb dims fr = Ok scored ->
  map candidate scored = map candidate fr /\ length scored = length fr.
Proof.
  intros H. destruct (score_frame_scores _ _ H) as (s & _ & Hlen & ->).
  split; [now apply assign_scores_candidate|now apply assign_scores_length].
Qed.

Lemma funnel_round_inv (dims : Z) (fr out : DataFrame) :
  funnel_round query_emb prune_ratio dims fr = Ok out ->
  exists scored k,
    score_frame query_emb dims fr = Ok scored /\
    prune_count prune_ratio (length fr) = Ok k /\
    out = slice_to k (sort_values scored).
Proof.
  unfold funnel_round. intros H.
  destruct (score_frame query_emb dims fr) as [scored|e] eqn:Hs;
    simpl in H; [|discriminate].
  destruct (score_frame_candidates _ _ Hs) as [_ Hlen].
  rewrite sort_values_length, Hlen in H.
  destruct (prune_count prune_ratio (length fr)) as [k|e] eqn:Hk;
    simpl in H; [|discriminate].
  inversion H. now exists scored, k.
Qed.

Lemma funnel_round_length (dims : Z) (fr out : DataFrame) :
  funnel_round query_emb prune_ratio dims fr = Ok out ->
  (length out <= length fr)%nat.
Proof.
  intros H. destruct (funnel_round_inv _ _ H) as (scored & k & Hs & _ & ->).
  destruct (score_frame_candidates _ _ Hs) as [_ Hlen].
  rewrite <- Hlen, <- (sort_values_length scored).
  apply slice_to_length_le.
Qed.

Lemma funnel_round_candidates (dims : Z) (fr out : DataFrame) :
  funnel_round query_emb prune_ratio dims fr = Ok out ->
  incl (map candidate out) (map candidate fr).
Proof.
  intros H. destruct (funnel_round_inv _ _ H) as (scored & k & Hs & _ & ->).
  destruct (score_frame_candidates _ _ Hs) as [Hc _].
  rewrite <- Hc. intros c Hin.
  apply in_map_iff in Hin as (row & <- & Hrow).
  apply in_map. apply slice_to_incl in Hrow.
  eapply Permutation_in; [|exact Hrow].
  symmetry. apply sort_values_perm.
Qed.

Lemma funnel_rounds_app (scales1 scales2 : list Z) (fr : DataFrame) :
  funnel_rounds query_emb prune_ratio (scales1 ++ scales2) fr
  = rbind (funnel_rounds query_emb prune_ratio scales1 fr)
          (funnel_rounds query_emb prune_ratio scales2).
Proof.
  revert fr; induction scales1 as [|d scales1 IH]; intros fr; simpl;
    [reflexivity|].
  destruct (funnel_round query_emb prune_ratio d fr); simpl; auto.
Qed.

Lemma funnel_rounds_length (scales : list Z) :
  forall fr out,
  funnel_rounds query_emb prune_ratio scales fr = Ok out ->
  (length out <= length fr)%nat.
Proof.
  induction scales as [|d scales IH]; simpl; intros fr out H.
  - inversion H. lia.
  - destruct (funnel_round query_emb prune_ratio d fr) as [mid|e] eqn:Hr;
      simpl in H; [|discriminate].
    apply funnel_round_length in Hr. apply IH in H. lia.
Qed.


(** The size after the rounds depends on the size before them, on their
    number and on [prune_ratio] alone. *)
Lemma funnel_rounds_size_after (scales : list Z) :
  forall fr out,
  funnel_rounds query_emb prune_ratio scales fr = Ok out ->
  size_after prune_ratio (length scales) (length fr) = Ok (length out).
Proof.
  induction scales as [|d scales IH]; intros fr out H; simpl in *.
  - now inversion H.
  - destruct (funnel_round query_emb prune_ratio d fr) as [mid|e] eqn:Hr;
      simpl in H; [|discriminate].
    apply funnel_round_inv in Hr as (scored & k & Hs & Hk & ->).
    rewrite Hk. cbn [rbind].
    apply score_frame_candidates in Hs as [_ Hs].
    apply IH in H.
    now rewrite slice_to_size, sort_values_length, Hs in H.
Qed.

End Rounds.

(** ** Valid inputs make every round succeed *)

Lemma slice_to_length_eq {A} (d : Z) (x y : list A) :
  length x = length y -> length (slice_to d x) = length (slice_to d y).
Proof.
  intros H. unfold slice_to.
  destruct (d <? 0); rewrite !length_firstn; lia.
Qed.

Section Total.
Context {kind : SortKind} {R : Reductions}.
Variables (query_emb : vector) (prune_ratio : float).
Hypothesis ratio_ok : valid_prune_ratio prune_ratio = true.


Lemma score_frame_total (fr : DataFrame) (dims : Z) :
  fr <> [] ->
  Forall (fun row => same_shape query_emb dims (embedding row)) fr ->
  exists scored, score_frame query_emb dims fr = Ok scored.
Proof.
  intros Hne Hshape. rewrite Forall_forall in Hshape.
  destruct (mapM_ok
              (fun row => calculate_score row
                            (normalize_query query_emb dims) dims) fr)
    as [s Hs].
  - intros row Hin. rewrite calculate_score_shape; [eauto|].
    rewrite normalize_query_length. now apply Hshape.
  - destruct fr as [|row fr]; [contradiction|].
    rewrite score_frame_cons, Hs. cbn [rbind]. eauto.
Qed.

(** A round on a scored frame keeps the first [int(prune_ratio * size)]
    rows of the sorted frame. *)
Lemma funnel_round_prunes (fr scored : DataFrame) (dims : Z) :
  addressable fr ->
  score_frame query_emb dims fr = Ok scored ->
  exists k,
    prune_count prune_ratio (length fr) = Ok k /\
    0 <= k <= Z.of_nat (length fr) /\
    funnel_round query_emb prune_ratio dims fr
    = Ok (firstn (Z.to_nat k) (sort_values scored)).
Proof.
  intros Hfit Hs.
  destruct (@prune_count_bounds prune_ratio (length fr) ratio_ok Hfit)
    as (k & Hk & Hb).
  exists k. repeat split; try lia; auto.
  unfold funnel_round. rewrite Hs. cbn [rbind]. cbv zeta.
  pose proof Hs as Hlen. apply score_frame_candidates in Hlen as [_ Hlen].
  rewrite sort_values_length, Hlen, Hk. cbn [rbind].
  rewrite slice_to_firstn by lia. reflexivity.
Qed.




(** With [0 < prune_ratio < 1] the head is never cut short by the frame:
    the sizes are the iterated [int(prune_ratio * size)]. *)
Lemma size_after_iter_prune (rounds : nat) :
  forall n, Z.of_nat n < 2 ^ 53 ->
  size_after prune_ratio rounds n = iter_prune prune_ratio rounds n.
Proof.
  induction rounds as [|rounds IH]; intros n Hn; simpl; [reflexivity|].
  destruct (@prune_count_bounds prune_ratio n ratio_ok Hn) as (k & Hk & Hb).
  rewrite Hk. cbn [rbind].
  assert (Hsize : slice_size k n = Z.to_nat k).
  { unfold slice_size. destruct (Z.ltb_spec k 0); lia. }
  rewrite Hsize. apply IH. lia.
Qed.

End Total.

(** ** Frames of one shape never fail in [@] *)

Lemma int_of_float_raises (x : float) (e : error) :
  int_of_float x = Raise e -> e <> RuntimeError.
Proof. destruct x; simpl; intros H; inversion H; discriminate. Qed.

Section Shapes.
Context {kind : SortKind} {R : Reductions}.
Variables (query_emb : vector) (prune_ratio : float).

Lemma funnel_rounds_same_shape (scales : list Z) :
  forall fr,
  Forall (fun d => Forall (fun row => same_shape query_emb d (embedding row))
                          fr) scales ->
  funnel_rounds query_emb prune_ratio scales fr <> Raise RuntimeError.
Proof.
  induction scales as [|d scales IH]; intros fr Hv; cbn [funnel_rounds].
  - discriminate.
  - inversion Hv as [|? ? Hd Hrest]; subst.
    destruct (funnel_round query_emb prune_ratio d fr) as [mid|e] eqn:Hround;
      cbn [rbind].
    + apply IH. eapply Forall_impl; [|exact Hrest].
      intros d' Hd'. apply funnel_round_candidates in Hround.
      exact (@candidates_Forall (same_shape query_emb d') fr mid Hround Hd').
    + unfold funnel_round in Hround.
      destruct fr as [|row fr].
      { rewrite score_frame_nil in Hround. cbn [rbind] in Hround.
        inversion Hround. discriminate. }
      destruct (@score_frame_total R query_emb (row :: fr) d) as [scored Hs];
        [discriminate|exact Hd|].
      rewrite Hs in Hround. cbn [rbind] in Hround. cbv zeta in Hround.
      destruct (prune_count prune_ratio (length (sort_values scored)))
        as [k|e'] eqn:Hk; cbn [rbind] in Hround; [discriminate|].
      inversion Hround; subst e'. intros He. inversion He; subst e.
      now apply int_of_float_raises in Hk.
Qed.

End Shapes.

(** ** Zero vectors, NaN and the clamp *)

Lemma is_zero_finite (x : float) : is_zero x = true -> is_finite x = true.
Proof. destruct x; simpl; congruence. Qed.

Lemma add_zero_mul_zero (a b : float) :
  is_zero a = true -> is_finite b = true ->
  F32.add F32.zero (F32.mul a b) = F32.zero.
Proof.
  destruct a as [[]| | |]; try discriminate;
    destruct b as [[]| | |[]]; try discriminate; reflexivity.
Qed.

Lemma sum_prod_zero_l (x y : vector) :
  forallb is_zero x = true -> forallb is_finite y = true ->
  sum_prod x y = F32.zero.
Proof.
  change (@sum_prod left_to_right) with left_to_right_sum.
  unfold left_to_right_sum.
  revert y; induction x as [|a x IH]; intros [|b y];
    cbn [combine fold_left fst snd forallb]; try reflexivity.
  intros Hx Hy.
  apply andb_prop in Hx as [Ha Hx]. apply andb_prop in Hy as [Hb Hy].
  rewrite add_zero_mul_zero by assumption. now apply IH.
Qed.

Lemma add_zero_mul_zero_not_finite (a b : float) :
  is_zero a = true -> is_finite b = false ->
  F32.add F32.zero (F32.mul a b) = S754_nan.
Proof.
  destruct a as [[]| | |]; try discriminate;
    destruct b as [[]|[]| |[]]; try discriminate; reflexivity.
Qed.

Lemma forallb_zero_finite (x : vector) :
  forallb is_zero x = true -> forallb is_finite x = true.
Proof.
  rewrite !forallb_forall. intros H a Ha. now apply is_zero_finite, H.
Qed.

Lemma norm_zero (x : vector) : forallb is_zero x = true -> norm x = F32.zero.
Proof.
  intros H. change (norm x) with (F32.sqrt (sum_prod x x)).
  rewrite sum_prod_zero_l by auto using forallb_zero_finite. reflexivity.
Qed.

Lemma linalg_norm_zero (x : vector) :
  forallb is_zero x = true -> linalg_norm x = F32.zero.
Proof. apply norm_zero. Qed.

Lemma add_nan_l (a : float) : F32.add S754_nan a = S754_nan.
Proof. reflexivity. Qed.

Lemma add_mul_nan_r (acc a : float) : F32.add acc (F32.mul a S754_nan) = S754_nan.
Proof. destruct acc, a; reflexivity. Qed.

Lemma fold_nan (l : list (float * float)) :
  fold_left (fun acc ab => F32.add acc (F32.mul (fst ab) (snd ab))) l S754_nan
  = S754_nan.
Proof.
  induction l as [|ab l IH]; cbn [fold_left]; [reflexivity|].
  rewrite add_nan_l. exact IH.
Qed.

(** The products of a zero vector: zeros against finite components, NaN
    against an infinite or NaN one. *)
Lemma sum_prod_zero_any (x y : vector) :
  forallb is_zero x = true -> length x = length y ->
  sum_prod x y = if forallb is_finite y then F32.zero else S754_nan.
Proof.
  change (@sum_prod left_to_right) with left_to_right_sum.
  unfold left_to_right_sum.
  revert y; induction x as [|a x IH]; intros [|b y];
    cbn [combine fold_left fst snd forallb length]; try discriminate;
    try reflexivity.
  intros Hx Hlen. apply andb_prop in Hx as [Ha Hx].
  destruct (is_finite b) eqn:Hb; cbn [andb].
  - rewrite add_zero_mul_zero by assumption. apply IH; [exact Hx|lia].
  - rewrite add_zero_mul_zero_not_finite by assumption. apply fold_nan.
Qed.

(** [F.normalize] leaves a zero vector as it is: the clamp replaces its
    norm by [eps]. *)
Lemma F_normalize_zero (x : vector) :
  forallb is_zero x = true -> F_normalize x = x.
Proof.
  intros H. unfold F_normalize. rewrite norm_zero by exact H.
  change (clamp_min F32.zero eps) with eps.
  rewrite forallb_forall in H.
  rewrite <- (map_id x) at 2. apply map_ext_in. intros a Ha.
  specialize (H a Ha). destruct a as [[]| | |]; try discriminate; reflexivity.
Qed.

(** numpy's division of a zero vector by its zero norm: NaN everywhere. *)
Lemma normalize_query_zero (q : vector) (dims : Z) :
  forallb is_zero (slice_to dims q) = true ->
  normalize_query q dims = map (fun _ => S754_nan) (slice_to dims q).
Proof.
  intros H. unfold normalize_query. rewrite linalg_norm_zero by exact H.
  rewrite forallb_forall in H. apply map_ext_in. intros a Ha.
  specialize (H a Ha). destruct a as [[]| | |]; try discriminate; reflexivity.
Qed.

Lemma sum_prod_nan_r (x y : vector) :
  x <> [] -> length x = length y ->
  sum_prod x (map (fun _ => S754_nan) y) = S754_nan.
Proof.
  change (@sum_prod left_to_right) with left_to_right_sum.
  unfold left_to_right_sum. destruct x as [|a x], y as [|b y];
    cbn [combine fold_left fst snd map length];
    try congruence; try discriminate.
  intros _ _. rewrite add_mul_nan_r. apply fold_nan.
Qed.

(** * Properties of the specification *)

(** ** Pruning (C1) *)

(** C1, as the specification words it, fails: there is no minimum of one
    retained candidate.  A single candidate scored at [dims = 2] with
    [prune_ratio = 0.5] is pruned away, [int(0.5 * 1) = 0], and the call
    returns an empty frame. *)
Lemma single_candidate_pruned_away :
  valid_prune_ratio half = true /\
  length [row_a] = 1%nat /\
  returned (funnel_search 0%nat query_34 [2] half [[row_a]]) = Ok [].
Proof. repeat split; vm_compute; reflexivity. Qed.

(** C1, amended: on a frame with rows and with [0 < prune_ratio < 1], a
    round keeps exactly the first [int(prune_ratio * size)] rows of the
    re-ranked frame, a number between 0 and [size], and nothing when that
    number is 0; a frame of one row is emptied by its first round, and the
    call with that one scale returns the empty frame. *)
Theorem funnel_search_prunes_to_floor {kind : SortKind} {R : Reductions}
        (query_emb : vector) (prune_ratio : float) (dims : Z)
        (df : ref) (st : Store) :
  valid_prune_ratio prune_ratio = true ->
  (df < length st)%nat ->
  deref st df <> [] ->
  addressable (deref st df) ->
  exists k,
    int_of_float
      (F64.mul prune_ratio (F64.of_Z (Z.of_nat (length (deref st df)))))
    = Ok k /\
    0 <= k <= Z.of_nat (length (deref st df)) /\
    returned (funnel_search_body df query_emb dims prune_ratio st)
    = rbind (score_frame query_emb dims (deref st df))
            (fun scored => Ok (firstn (Z.to_nat k) (sort_values scored))) /\
    (length (deref st df) = 1%nat ->
     k = 0 /\
     returned (funnel_search df query_emb [dims] prune_ratio st)
     = rbind (score_frame query_emb dims (deref st df)) (fun _ => Ok [])).
Proof.
  intros Hr Hdf _ Hfit.
  destruct (@prune_count_bounds prune_ratio (length (deref st df)) Hr Hfit)
    as (k & Hk & Hb).
  exists k. split; [exact Hk|]. split; [exact Hb|].
  rewrite returned_body, returned_funnel_search by exact Hdf.
  cbn [funnel_rounds].
  destruct (score_frame query_emb dims (deref st df)) as [scored|e] eqn:Hs.
  - destruct (@funnel_round_prunes kind R query_emb prune_ratio Hr
                (deref st df) scored dims Hfit Hs) as (k' & Hk' & _ & Hround).
    assert (k' = k) by congruence. subst k'.
    rewrite Hround. cbn [rbind]. split; [reflexivity|].
    intros Hone. rewrite Hone, prune_count_one in Hk by exact Hr.
    inversion Hk; subst k. split; reflexivity.
  - unfold funnel_round. rewrite Hs. cbn [rbind]. split; [reflexivity|].
    intros Hone. rewrite Hone, prune_count_one in Hk by exact Hr.
    inversion Hk. split; reflexivity.
Qed.

Lemma funnel_search_prunes_to_floor_witness :
  returned (funnel_search_body 0%nat query_34 2 half store_ab)
  = Ok [set_score row_a F64.one] /\
  returned (funnel_search 0%nat query_34 [2] half [[row_a]]) = Ok [].
Proof.
  split.
  - destruct (@funnel_search_prunes_to_floor stable_kind left_to_right
                query_34 half 2 0%nat store_ab) as (k & Hk & _ & Hbody & _).
    + vm_compute. reflexivity.
    + simpl. lia.
    + vm_compute. discriminate.
    + vm_compute. reflexivity.
    + rewrite Hbody. vm_compute in Hk. inversion Hk. vm_compute. reflexivity.
  - destruct (@funnel_search_prunes_to_floor stable_kind left_to_right
                query_34 half 2 0%nat [[row_a]]) as (k & _ & _ & _ & Hone).
    + vm_compute. reflexivity.
    + simpl. lia.
    + vm_compute. discriminate.
    + vm_compute. reflexivity.
    + destruct (Hone eq_refl) as [_ Hret]. rewrite Hret.
      vm_compute. reflexivity.
Defined.

(** ** Effects on the caller's frame (C2) *)

(** C2, as the specification words it, fails: the first round assigns
    [df["scores"]] on the very frame the caller passed, so the caller's
    frame has a score column after the call that it did not have before. *)
Lemma scores_written_to_caller_frame :
  deref (snd (funnel_search 0%nat query_34 [2] half store_ab)) 0%nat
  <> deref store_ab 0%nat.
Proof. vm_compute. discriminate. Qed.

(** C2, amended: a call changes no frame of the caller other than the one it
    was given; in that frame the rows keep their order, titles and
    embeddings, and the score column holds the scores of the first scale
    (the frame is untouched when [scales] is empty or the first scoring
    raises). *)
Theorem funnel_search_frame_effect {kind : SortKind} {R : Reductions}
        (query_emb : vector) (prune_ratio : float) (scales : list Z)
        (df : ref) (st : Store) :
  (df < length st)%nat ->
  let st' := snd (funnel_search df query_emb scales prune_ratio st) in
  (forall l, (l < length st)%nat -> l <> df -> deref st' l = deref st l) /\
  deref st' df = caller_frame_after query_emb scales (deref st df) /\
  map candidate (deref st' df) = map candidate (deref st df).
Proof.
  intros Hdf.
  destruct (@funnel_search_run kind R query_emb prune_ratio scales df st Hdf)
    as (res & st' & Hrun & _ & Hothers & Hcaller & _).
  rewrite Hrun. cbn [snd]. split; [exact Hothers|]. split; [exact Hcaller|].
  rewrite Hcaller. destruct scales as [|dims scales]; [reflexivity|].
  cbn [caller_frame_after].
  destruct (score_frame query_emb dims (deref st df)) as [scored|e] eqn:Hs;
    [|reflexivity].
  now apply score_frame_candidates in Hs as [Hc _].
Qed.

Lemma funnel_search_frame_effect_witness :
  let st' := snd (funnel_search 0%nat query_34 [2] half
                                store_ab_z) in
  (forall l, (l < length store_ab_z)%nat -> l <> 0%nat ->
             deref st' l = deref store_ab_z l) /\
  deref st' 0%nat
  = caller_frame_after query_34 [2] (deref store_ab_z 0%nat) /\
  map candidate (deref st' 0%nat)
  = map candidate (deref store_ab_z 0%nat).
Proof.
  apply (@funnel_search_frame_effect stable_kind left_to_right query_34 half [2] 0%nat
           store_ab_z).
  simpl. lia.
Defined.

(** ** Sizes (C8, C9) *)

(** C8: the frame a call returns after any number of rounds is no longer
    than the frame it returns after fewer rounds, which is no longer than
    the caller's frame: every returning call shrinks or keeps the size at
    each round. *)
Theorem funnel_search_monotonic_shrink {kind : SortKind} {R : Reductions}
        (query_emb : vector) (prune_ratio : float)
        (scales1 scales2 : list Z) (df : ref) (st : Store) (out : DataFrame) :
  (df < length st)%nat ->
  returned (funnel_search df query_emb (scales1 ++ scales2) prune_ratio st)
  = Ok out ->
  exists mid,
    returned (funnel_search df query_emb scales1 prune_ratio st) = Ok mid /\
    (length out <= length mid <= length (deref st df))%nat.
Proof.
  intros Hdf. rewrite !returned_funnel_search by exact Hdf.
  rewrite funnel_rounds_app. intros Hout.
  destruct (funnel_rounds query_emb prune_ratio scales1 (deref st df))
    as [mid|e] eqn:Hmid; cbn [rbind] in Hout; [|discriminate].
  exists mid. split; [reflexivity|].
  apply funnel_rounds_length in Hmid, Hout. lia.
Qed.

Lemma funnel_search_monotonic_shrink_witness :
  exists mid,
    returned (funnel_search 0%nat query_34 [2] half store_ab) = Ok mid /\
    (length (@nil Row) <= length mid <= length (deref store_ab 0%nat))%nat.
Proof.
  apply (@funnel_search_monotonic_shrink stable_kind left_to_right query_34 half [2] [1]
           0%nat store_ab []).
  - simpl. lia.
  - vm_compute. reflexivity.
Defined.



(** ** Dimensions (C3) *)

(** C3, as the specification words it, fails: a scale beyond the length of
    the embeddings is not rejected.  With [scales = [1000]] and embeddings
    of length 768 the slices are the whole embeddings, the call scores on
    all 768 components and returns a frame. *)
Lemma short_embeddings_not_rejected :
  length (ones 768) = 768%nat /\
  rbind (returned (funnel_search 0%nat (ones 768) [1000] half
                     [[mkRow "A"%string (ones 768) None;
                       mkRow "B"%string (ones 768) None]]))
        (fun out => Ok (map candidate out))
  = Ok [("A"%string, ones 768)].
Proof. split; vm_compute; reflexivity. Qed.

(** C3, amended: slicing never fails.  The call raises, torch's size
    mismatch and no result, when in the first round the [dims]-prefix of
    some candidate is not as long as the [dims]-prefix of the query; when
    every candidate embedding is as long as the query embedding no round
    raises it, whatever the scales and the lengths are. *)
Theorem funnel_search_shape_errors {kind : SortKind} {R : Reductions}
        (query_emb : vector) (prune_ratio : float) (dims : Z)
        (scales : list Z) (df : ref) (st : Store) :
  (df < length st)%nat ->
  ((exists row, In row (deref st df) /\
                ~ same_shape query_emb dims (embedding row)) ->
   returned (funnel_search df query_emb (dims :: scales) prune_ratio st)
   = Raise RuntimeError) /\
  (Forall (fun row => length (embedding row) = length query_emb)
          (deref st df) ->
   returned (funnel_search df query_emb (dims :: scales) prune_ratio st)
   <> Raise RuntimeError).
Proof.
  intros Hdf. rewrite returned_funnel_search by exact Hdf. split.
  - intros (row & Hin & Hshape). cbn [funnel_rounds].
    unfold funnel_round.
    destruct (deref st df) as [|r fr] eqn:Hfr; [contradiction|].
    rewrite score_frame_cons.
    rewrite (@mapM_raise _ _ _ (r :: fr) RuntimeError); [reflexivity| |].
    + intros a e. apply calculate_score_raises.
    + exists row. split; [exact Hin|].
      apply calculate_score_mismatch.
      now rewrite normalize_query_length.
  - intros Hsame. apply funnel_rounds_same_shape.
    apply Forall_forall. intros d _.
    eapply Forall_impl; [|exact Hsame].
    intros row Hrow. now apply slice_to_length_eq.
Qed.

Lemma funnel_search_shape_errors_witness :
  returned (funnel_search 0%nat [f32 1] [2; 1] half store_ab)
  = Raise RuntimeError /\
  returned (funnel_search 0%nat query_34 [5; -1] half store_ab)
  <> Raise RuntimeError.
Proof.
  split.
  - apply (@funnel_search_shape_errors stable_kind left_to_right [f32 1] half 2 [1] 0%nat
             store_ab); [simpl; lia|].
    exists row_a. split; [now left|]. vm_compute. discriminate.
  - apply (@funnel_search_shape_errors stable_kind left_to_right query_34 half 5 [-1] 0%nat
             store_ab); [simpl; lia|].
    repeat constructor.
Defined.

(** ** Zero vectors (C4, C10) *)

(** C4, as the specification words it, fails: no normalisation step raises.
    A query whose prefix is the zero vector has norm zero; numpy's division
    makes every component NaN, every score of the round is NaN, and the call
    returns. *)
Lemma zero_query_returns_nan_scores :
  linalg_norm (slice_to 2 query_zero) = F32.zero /\
  returned (funnel_search 0%nat query_zero [2] half store_ab)
  = Ok [set_score row_a S754_nan].
Proof. split; vm_compute; reflexivity. Qed.

(** C4, amended: a prefix of norm zero is not an error on either side.
    [calculate_score] returns a score for every candidate of the shape of
    the query, whatever the norms are.  When the [dims]-prefix of the query
    is a non-empty zero vector, its norm is zero and that score is NaN; when
    the [dims]-prefix of the candidate is a zero vector, its norm is zero
    and [F.normalize] divides it by the clamp [eps], returning it
    unchanged. *)
Theorem zero_norm_is_not_an_error
        (row : Row) (query_emb : vector) (dims : Z) :
  same_shape query_emb dims (embedding row) ->
  (exists s,
     calculate_score row (normalize_query query_emb dims) dims = Ok s) /\
  (slice_to dims query_emb <> [] ->
   forallb is_zero (slice_to dims query_emb) = true ->
   linalg_norm (slice_to dims query_emb) = F32.zero /\
   calculate_score row (normalize_query query_emb dims) dims = Ok S754_nan) /\
  (forallb is_zero (slice_to dims (embedding row)) = true ->
   norm (slice_to dims (embedding row)) = F32.zero /\
   F_normalize (slice_to dims (embedding row))
   = slice_to dims (embedding row)).
Proof.
  intros Hshape.
  assert (Hscore := calculate_score_shape row (normalize_query query_emb dims)
                      dims).
  rewrite normalize_query_length in Hscore. specialize (Hscore Hshape).
  split; [eauto|]. split.
  - intros Hne Hzero. split; [now apply linalg_norm_zero|].
    rewrite Hscore, normalize_query_zero by exact Hzero.
    rewrite sum_prod_nan_r; [reflexivity| |].
    + unfold same_shape in Hshape. intros Hnil.
      apply length_zero_iff_nil in Hnil.
      rewrite F_normalize_length, Hshape in Hnil.
      apply length_zero_iff_nil in Hnil. contradiction.
    + rewrite F_normalize_length. exact Hshape.
  - intros Hzero. split; [now apply norm_zero|now apply F_normalize_zero].
Qed.

Lemma zero_norm_is_not_an_error_witness :
  (exists s, calculate_score row_zero (normalize_query query_zero 2) 2 = Ok s) /\
  (linalg_norm (slice_to 2 query_zero) = F32.zero /\
   calculate_score row_zero (normalize_query query_zero 2) 2 = Ok S754_nan) /\
  (norm (slice_to 2 (embedding row_zero)) = F32.zero /\
   F_normalize (slice_to 2 (embedding row_zero))
   = slice_to 2 (embedding row_zero)).
Proof.
  destruct (@zero_norm_is_not_an_error row_zero query_zero 2)
    as (Hscore & Hquery & Hcand).
  - vm_compute. reflexivity.
  - split; [exact Hscore|]. split.
    + apply Hquery; [vm_compute; discriminate|vm_compute; reflexivity].
    + apply Hcand. vm_compute. reflexivity.
Defined.

(** C10, as it is worded, fails: the score of a zero-prefix candidate is not
    always 0.0, and [calculate_score] is not total.  Against the all-NaN
    vector that a zero query normalises to, the products [0 * nan] are NaN
    and so is the score; against a query vector of another length the
    product raises. *)
Lemma zero_candidate_scores_nan :
  forallb is_zero (slice_to 2 (embedding row_zero)) = true /\
  calculate_score row_zero (normalize_query query_zero 2) 2 = Ok S754_nan /\
  calculate_score row_zero [f32 1] 2 = Raise RuntimeError.
Proof. repeat split; vm_compute; reflexivity. Qed.

(** C10, amended: for a candidate whose [dims]-prefix is the zero vector the
    zero norm is clamped to [eps] and the normalised prefix is the zero
    vector.  Against a query vector of the length of that prefix
    [calculate_score] returns 0.0 when all the components of the query
    vector are finite and NaN otherwise; against a query vector of another
    length it raises. *)
Theorem calculate_score_zero_prefix
        (row : Row) (query_emb : vector) (dims : Z) :
  forallb is_zero (slice_to dims (embedding row)) = true ->
  calculate_score row query_emb dims
  = if Nat.eqb (length (slice_to dims (embedding row))) (length query_emb)
    then Ok (if forallb is_finite query_emb then F64.zero else S754_nan)
    else Raise RuntimeError.
Proof.
  intros Hzero.
  destruct (Nat.eqb_spec (length (slice_to dims (embedding row)))
                         (length query_emb)) as [Hlen|Hlen].
  - rewrite calculate_score_shape by exact Hlen.
    rewrite F_normalize_zero by exact Hzero.
    rewrite sum_prod_zero_any by assumption.
    destruct (forallb is_finite query_emb); reflexivity.
  - now apply calculate_score_mismatch.
Qed.

Lemma calculate_score_zero_prefix_witness :
  calculate_score row_zero (normalize_query query_34 2) 2 = Ok F64.zero.
Proof.
  rewrite (@calculate_score_zero_prefix row_zero (normalize_query query_34 2) 2)
    by (vm_compute; reflexivity).
  vm_compute. reflexivity.
Defined.

(** ** Final order and scores (C6, C7) *)





Section FinalScores.
Context {R : Reductions}.
Variable query_emb : vector.




End FinalScores.





(** The order of candidates of equal similarity is the sort's own, which
    the call leaves to pandas: for a sort kind that puts them in reverse
    the call returns [A4], [A3] where the direct sort begins with [A1],
    [A2]. *)
Lemma tied_candidates_follow_the_sort_kind :
  match spec_sort_by_cosine query_34 frame_tied with
  | Computed ranked => map title ranked
  | Fails _ => []
  end = ["A1"; "A2"; "A3"; "A4"]%string /\
  match returned (funnel_search (kind := reversed_kind) 0%nat query_34 [2]
                    half [frame_tied]) with
  | Ok out => map title out
  | Raise _ => []
  end = ["A4"; "A3"]%string.
Proof. split; vm_compute; reflexivity. Qed.



(** * Further properties of the code *)

(** ** Exact products: [prune_ratio] 0.5 and 1.0 *)

Lemma F64_mul_comm (x y : float) : F64.mul x y = F64.mul y x.
Proof.
  unfold F64.mul.
  destruct x as [sx|sx| |sx mx ex], y as [sy|sy| |sy my ey]; cbn [SFmul];
    try reflexivity; try (now rewrite xorb_comm).
  now rewrite xorb_comm, Pos.mul_comm, Z.add_comm.
Qed.

(** [float(n)] for [0 < n < 2^53]: a normal number of value [n]. *)
Lemma of_Z_pos_normal (p : positive) :
  Zpos p < 2 ^ 53 ->
  exists my ey,
    F64.of_Z (Zpos p) = S754_finite false my ey /\
    -52 <= ey <= 0 /\ Zpos my = Zpos p * 2 ^ (- ey) /\
    Zpos (digits2_pos my) = 53.
Proof.
  intros Hp. unfold F64.of_Z, F64.prec, F64.emax, binary_normalize,
    binary_round.
  assert (Hd : Zpos (digits2_pos p) <= 53).
  { change (Zdigits2 (Zpos p) <= 53). apply Zdigits2_le; lia. }
  unfold shl_align. rewrite fexp64.
  rewrite Z.max_l by lia.
  destruct (Zpos (digits2_pos p) + 0 - 53 - 0) as [|k|k] eqn:Hk; try lia.
  - exists p, 0. split; [|repeat split; cbn; lia].
    apply binary_round_aux_exact; [rewrite fexp64|]; lia.
  - exists (Pos.iter xO p k), (Zpos (digits2_pos p) + 0 - 53).
    split; [|repeat split; try lia].
    + apply binary_round_aux_exact; [rewrite fexp64, iter_xO_digits|]; lia.
    + rewrite iter_xO_value. do 2 f_equal. lia.
    + rewrite iter_xO_digits. lia.
Qed.

(** The product of a normal number and a power of two is exact. *)
Lemma mul_pow2_exact (m : positive) (e k : Z) :
  Zpos (digits2_pos m) = 53 ->
  -1074 <= e + k + 52 <= 971 ->
  F64.mul (S754_finite false m e) (S754_finite false 4503599627370496 k)
  = S754_finite false m (e + k + 52).
Proof.
  intros Hd Hk. unfold F64.mul, F64.prec, F64.emax. cbn [SFmul xorb].
  assert (HP : (m * 4503599627370496)%positive = Pos.iter xO m 52).
  { apply Pos2Z.inj. rewrite iter_xO_value, Pos2Z.inj_mul, pow2_52.
    reflexivity. }
  assert (Hc : fexp 53 1024 (Zpos (digits2_pos m) + (e + k + 52))
               = e + k + 52) by (rewrite fexp64; lia).
  rewrite HP. unfold binary_round_aux.
  assert (H1 : shr_fexp 53 1024 (Zpos (Pos.iter xO m 52)) (e + k) loc_Exact
               = (Build_shr_record (Zpos m) false false, e + k + 52)).
  { unfold shr_fexp. cbn [Zdigits2 shr_record_of_loc].
    rewrite iter_xO_digits.
    replace (Zpos (digits2_pos m + 52) + (e + k))
      with (Zpos (digits2_pos m) + (e + k + 52)) by lia.
    rewrite Hc. replace (e + k + 52 - (e + k)) with 52 by lia.
    cbn [shr]. rewrite iter_pos_shr_1_exact. f_equal. }
  rewrite H1. cbn [shr_m loc_of_shr_record round_nearest_even].
  unfold shr_fexp. cbn [Zdigits2 shr_record_of_loc].
  rewrite Hc, Z.sub_diag. cbn [shr shr_m].
  replace (e + k + 52 <=? 1024 - 53) with true
    by (symmetry; apply Z.leb_le; lia).
  reflexivity.
Qed.

(** [int(0.5 * n)] is [n // 2]. *)
Lemma prune_count_half (n : nat) :
  Z.of_nat n < 2 ^ 53 -> prune_count half n = Ok (Z.of_nat n / 2).
Proof.
  intros Hn. unfold prune_count.
  destruct (Z.of_nat n) as [|p|p] eqn:Hp; try lia; [reflexivity|].
  destruct (of_Z_pos_normal Hn) as (my & ey & -> & Hey & Hmy & Hd).
  rewrite F64_mul_comm. unfold half.
  rewrite mul_pow2_exact by (try exact Hd; lia).
  cbn [int_of_float cond_Zopp].
  rewrite Z.shiftl_div_pow2 by lia. rewrite Hmy.
  replace (- (ey + -53 + 52)) with (- ey + 1) by lia.
  rewrite pow2_split by lia.
  assert (0 < 2 ^ (- ey)) by (apply Z.pow_pos_nonneg; lia).
  change (2 ^ 1) with 2.
  rewrite Z.mul_comm. rewrite Z.div_mul_cancel_l by lia. reflexivity.
Qed.

(** [int(1.0 * n)] is [n]. *)
Lemma prune_count_whole (n : nat) :
  Z.of_nat n < 2 ^ 53 -> prune_count F64.one n = Ok (Z.of_nat n).
Proof.
  intros Hn. unfold prune_count.
  destruct (Z.of_nat n) as [|p|p] eqn:Hp; try lia; [reflexivity|].
  destruct (of_Z_pos_normal Hn) as (my & ey & -> & Hey & Hmy & Hd).
  rewrite F64_mul_comm. unfold F64.one.
  rewrite mul_pow2_exact by (try exact Hd; lia).
  cbn [int_of_float cond_Zopp].
  rewrite Z.shiftl_div_pow2 by lia. rewrite Hmy.
  replace (- (ey + -52 + 52)) with (- ey) by lia.
  assert (0 < 2 ^ (- ey)) by (apply Z.pow_pos_nonneg; lia).
  rewrite Z.div_mul by lia. reflexivity.
Qed.

(** ** What a round keeps and what it drops *)

Lemma slice_to_split {A} (d : Z) (l : list A) :
  exists rest, l = slice_to d l ++ rest.
Proof.
  unfold slice_to. destruct (d <? 0).
  - exists (skipn (length l - Z.to_nat (- d)) l). symmetry.
    apply firstn_skipn.
  - exists (skipn (Z.to_nat d) l). symmetry. apply firstn_skipn.
Qed.

Lemma StronglySorted_app_Forall {A} (R : A -> A -> Prop) (l1 l2 : list A) :
  StronglySorted R (l1 ++ l2) -> Forall (fun a => Forall (R a) l2) l1.
Proof.
  induction l1 as [|a l1 IH]; simpl; intros H; [constructor|].
  inversion H as [|? ? Hs Ha]; subst. constructor; [|now apply IH].
  apply Forall_app in Ha. tauto.
Qed.

Section Pruning.
Context {kind : SortKind} {R : Reductions}.
Variables (query_emb : vector) (prune_ratio : float).

Lemma funnel_round_split (dims : Z) (fr out : DataFrame) :
  funnel_round query_emb prune_ratio dims fr = Ok out ->
  exists scored dropped,
    score_frame query_emb dims fr = Ok scored /\
    sort_values scored = out ++ dropped.
Proof.
  intros H. apply funnel_round_inv in H as (scored & k & Hs & _ & ->).
  destruct (slice_to_split k (sort_values scored)) as [dropped Hd].
  now exists scored, dropped.
Qed.

Lemma funnel_rounds_submultiset (scales : list Z) :
  forall fr out,
  funnel_rounds query_emb prune_ratio scales fr = Ok out ->
  exists rest, Permutation (map candidate fr) (map candidate out ++ rest).
Proof.
  induction scales as [|d scales IH]; simpl; intros fr out H.
  - inversion H; subst. exists []. now rewrite app_nil_r.
  - destruct (funnel_round query_emb prune_ratio d fr) as [mid|e] eqn:Hr;
      simpl in H; [|discriminate].
    apply funnel_round_split in Hr as (scored & dropped & Hs & Hsort).
    apply score_frame_candidates in Hs as [Hc _].
    destruct (IH _ _ H) as [rest Hrest].
    exists (rest ++ map candidate dropped).
    rewrite <- Hc, (Permutation_map candidate (sort_values_perm scored)).
    rewrite Hsort, map_app, Hrest. now rewrite app_assoc.
Qed.

End Pruning.

(** A call neither invents nor duplicates a candidate: the candidates of
    the returned frame, with their multiplicities, are among those of the
    caller's frame. *)
Theorem funnel_search_keeps_candidates {kind : SortKind} {R : Reductions}
        (query_emb : vector) (prune_ratio : float) (scales : list Z)
        (df : ref) (st : Store) (out : DataFrame) :
  (df < length st)%nat ->
  returned (funnel_search df query_emb scales prune_ratio st) = Ok out ->
  exists rest,
    Permutation (map candidate (deref st df)) (map candidate out ++ rest).
Proof.
  intros Hdf H. rewrite returned_funnel_search in H by exact Hdf.
  eapply funnel_rounds_submultiset. exact H.
Qed.

Lemma funnel_search_keeps_candidates_witness :
  exists rest,
    Permutation (map candidate (deref store_ab 0%nat))
                (map candidate [set_score row_a F64.one] ++ rest).
Proof.
  apply (@funnel_search_keeps_candidates stable_kind left_to_right query_34 half [2] 0%nat
           store_ab [set_score row_a F64.one]).
  - simpl. lia.
  - vm_compute. reflexivity.
Defined.

(** A round drops only the lowest ranked rows: the scored frame is, up to
    order, the rows kept and the rows dropped, and every row kept ranks at
    least as high as every row dropped. *)
Theorem funnel_search_body_prunes_lowest {kind : SortKind} {R : Reductions}
        (query_emb : vector) (prune_ratio : float) (dims : Z)
        (df : ref) (st : Store) (out : DataFrame) :
  (df < length st)%nat ->
  returned (funnel_search_body df query_emb dims prune_ratio st) = Ok out ->
  exists scored dropped,
    score_frame query_emb dims (deref st df) = Ok scored /\
    Permutation scored (out ++ dropped) /\
    Forall (fun kept => Forall (score_desc kept) dropped) out.
Proof.
  intros Hdf H. rewrite returned_body in H by exact Hdf.
  apply funnel_round_split in H as (scored & dropped & Hs & Hsort).
  exists scored, dropped. split; [exact Hs|]. split.
  - rewrite <- Hsort. apply sort_values_perm.
  - apply StronglySorted_app_Forall. rewrite <- Hsort.
    apply sort_values_desc.
Qed.

Lemma funnel_search_body_prunes_lowest_witness :
  exists scored dropped,
    score_frame query_34 2 (deref store_ab 0%nat) = Ok scored /\
    Permutation scored ([set_score row_a F64.one] ++ dropped) /\
    Forall (fun kept => Forall (score_desc kept) dropped)
           [set_score row_a F64.one].
Proof.
  apply (@funnel_search_body_prunes_lowest stable_kind left_to_right query_34 half 2 0%nat
           store_ab [set_score row_a F64.one]).
  - simpl. lia.
  - vm_compute. reflexivity.
Defined.

(** ** The default [prune_ratio] and other ratios *)

Lemma iter_prune_half (rounds : nat) :
  forall n, Z.of_nat n < 2 ^ 53 ->
  iter_prune half rounds n
  = Ok (Z.to_nat (Z.of_nat n / 2 ^ Z.of_nat rounds)).
Proof.
  induction rounds as [|rounds IH]; intros n Hn.
  - cbn [iter_prune Z.of_nat]. rewrite Z.pow_0_r, Z.div_1_r.
    now rewrite Nat2Z.id.
  - cbn [iter_prune]. rewrite prune_count_half by exact Hn. cbn [rbind].
    assert (Hhalf : 0 <= Z.of_nat n / 2 <= Z.of_nat n).
    { split; [apply Z.div_pos; lia|].
      apply Z.div_le_upper_bound; lia. }
    rewrite IH by (rewrite Z2Nat.id; lia).
    rewrite Z2Nat.id by lia. rewrite Z.div_div by lia.
    rewrite Nat2Z.inj_succ, Z.pow_succ_r by lia. reflexivity.
Qed.

(** With the default [prune_ratio=0.5] every round halves the frame,
    rounding down: a returning call on [n] rows returns [n // 2^rounds]
    rows, and with the three default scales [n // 8] rows. *)
Theorem funnel_search_default_halves {kind : SortKind} {R : Reductions}
        (query_emb : vector) (scales : list Z) (df : ref) (st : Store)
        (out : DataFrame) :
  (df < length st)%nat ->
  addressable (deref st df) ->
  returned (funnel_search df query_emb scales default_prune_ratio st)
  = Ok out ->
  Z.of_nat (length out)
  = Z.of_nat (length (deref st df)) / 2 ^ Z.of_nat (length scales) /\
  (scales = default_scales ->
   Z.of_nat (length out) = Z.of_nat (length (deref st df)) / 8).
Proof.
  intros Hdf Hfit H. unfold default_prune_ratio in H.
  rewrite returned_funnel_search in H by exact Hdf.
  apply funnel_rounds_size_after in H.
  rewrite size_after_iter_prune in H; [|reflexivity|exact Hfit].
  rewrite iter_prune_half in H by exact Hfit.
  inversion H as [Hlen].
  assert (Hpos : 0 <= Z.of_nat (length (deref st df))
                      / 2 ^ Z.of_nat (length scales))
    by (apply Z.div_pos; [lia|apply Z.pow_pos_nonneg; lia]).
  rewrite Z2Nat.id by exact Hpos. split; [reflexivity|].
  intros ->. reflexivity.
Qed.

Lemma funnel_search_default_halves_witness :
  Z.of_nat (length [set_score row_a F64.one])
  = Z.of_nat (length (deref store_8 0%nat))
    / 2 ^ Z.of_nat (length default_scales) /\
  Z.of_nat (length [set_score row_a F64.one])
  = Z.of_nat (length (deref store_8 0%nat)) / 8.
Proof.
  destruct (@funnel_search_default_halves stable_kind left_to_right query_34 default_scales
              0%nat store_8 [set_score row_a F64.one]) as [Hgen Hdef].
  - simpl. lia.
  - vm_compute. reflexivity.
  - vm_compute. reflexivity.
  - split; [exact Hgen|]. apply Hdef. reflexivity.
Defined.

Section Ratios.
Context {kind : SortKind} {R : Reductions}.
Variable query_emb : vector.

Lemma funnel_rounds_whole (scales : list Z) :
  forall fr out,
  addressable fr ->
  funnel_rounds query_emb F64.one scales fr = Ok out ->
  Permutation (map candidate fr) (map candidate out).
Proof.
  induction scales as [|d scales IH]; simpl; intros fr out Hfit H.
  - inversion H. reflexivity.
  - destruct (funnel_round query_emb F64.one d fr) as [mid|e] eqn:Hr;
      simpl in H; [|discriminate].
    apply funnel_round_inv in Hr as (scored & k & Hs & Hk & ->).
    rewrite prune_count_whole in Hk by exact Hfit. inversion Hk; subst k.
    apply score_frame_candidates in Hs as [Hc Hlen].
    rewrite slice_to_all in H by (rewrite sort_values_length, Hlen; lia).
    apply IH in H.
    + rewrite <- H, <- Hc.
      apply Permutation_map, sort_values_perm.
    + unfold addressable in *. now rewrite sort_values_length, Hlen.
Qed.

Lemma prune_count_nan (r : float) (n : nat) :
  is_nan r = true -> prune_count r n = Raise ValueError.
Proof.
  destruct r; try discriminate. intros _. unfold prune_count, F64.mul.
  destruct (F64.of_Z (Z.of_nat n)); reflexivity.
Qed.

Lemma prune_count_infinity (s : bool) (n : nat) :
  (0 < n)%nat -> Z.of_nat n < 2 ^ 53 ->
  prune_count (S754_infinity s) n = Raise OverflowError.
Proof.
  intros Hpos Hn. unfold prune_count.
  destruct (Z.of_nat n) as [|p|p] eqn:Hp; try lia.
  destruct (of_Z_pos_normal Hn) as (my & ey & -> & _). reflexivity.
Qed.

End Ratios.

(** With [prune_ratio=1.0] nothing is pruned: a returning call only
    re-ranks, its frame holding every candidate of the caller's frame. *)
Theorem funnel_search_ratio_one_keeps_all {kind : SortKind} {R : Reductions}
        (query_emb : vector) (scales : list Z) (df : ref) (st : Store)
        (out : DataFrame) :
  (df < length st)%nat ->
  addressable (deref st df) ->
  returned (funnel_search df query_emb scales F64.one st) = Ok out ->
  Permutation (map candidate (deref st df)) (map candidate out).
Proof.
  intros Hdf Hfit H. rewrite returned_funnel_search in H by exact Hdf.
  eapply funnel_rounds_whole; eassumption.
Qed.

Lemma funnel_search_ratio_one_keeps_all_witness :
  Permutation (map candidate (deref store_ab 0%nat))
              (map candidate
                   [set_score row_a F64.one;
                    set_score row_b
                              (S754_finite false 8646911628148736 (-53))]).
Proof.
  apply (@funnel_search_ratio_one_keeps_all stable_kind left_to_right query_34 [2; 2] 0%nat
           store_ab).
  - simpl. lia.
  - vm_compute. reflexivity.
  - vm_compute. reflexivity.
Defined.

(** A [prune_ratio] that is not a number is found only when [int] is
    applied to the product, after the first scoring: NaN raises ValueError
    and an infinity, on a frame with rows, OverflowError. *)
Theorem funnel_search_nonfinite_ratio {kind : SortKind} {R : Reductions}
        (query_emb : vector) (prune_ratio : float) (dims : Z)
        (scales : list Z) (df : ref) (st : Store) :
  (df < length st)%nat ->
  (is_nan prune_ratio = true ->
   returned (funnel_search df query_emb (dims :: scales) prune_ratio st)
   = rbind (score_frame query_emb dims (deref st df))
           (fun _ => Raise ValueError)) /\
  (forall s, prune_ratio = S754_infinity s ->
   deref st df <> [] -> addressable (deref st df) ->
   returned (funnel_search df query_emb (dims :: scales) prune_ratio st)
   = rbind (score_frame query_emb dims (deref st df))
           (fun _ => Raise OverflowError)).
Proof.
  intros Hdf. rewrite returned_funnel_search by exact Hdf.
  cbn [funnel_rounds]. unfold funnel_round.
  destruct (score_frame query_emb dims (deref st df)) as [scored|e] eqn:Hs;
    cbn [rbind]; [|auto].
  cbv zeta. apply score_frame_candidates in Hs as [_ Hlen].
  rewrite sort_values_length, Hlen. split.
  - intros Hnan. now rewrite prune_count_nan.
  - intros s -> Hne Hfit. rewrite prune_count_infinity; [reflexivity| |exact Hfit].
    destruct (deref st df); [contradiction|simpl; lia].
Qed.

Lemma funnel_search_nonfinite_ratio_witness :
  returned (funnel_search 0%nat query_34 [2; 2] S754_nan store_ab)
  = Raise ValueError /\
  returned (funnel_search 0%nat query_34 [2; 2] (S754_infinity false) store_ab)
  = Raise OverflowError.
Proof.
  split.
  - rewrite (proj1 (@funnel_search_nonfinite_ratio stable_kind left_to_right query_34
                      S754_nan 2 [2] 0%nat store_ab ltac:(simpl; lia)))
      by reflexivity.
    vm_compute. reflexivity.
  - rewrite (proj2 (@funnel_search_nonfinite_ratio stable_kind left_to_right query_34
                      (S754_infinity false) 2 [2] 0%nat store_ab
                      ltac:(simpl; lia)) false);
      [vm_compute; reflexivity|reflexivity|vm_compute; discriminate
      |vm_compute; reflexivity].
Defined.

(** ** Objects and stale scores *)

Section Objects.
Context {kind : SortKind} {R : Reductions}.
Variables (query_emb : vector) (prune_ratio : float).

Lemma funnel_search_result_ref (scales : list Z) :
  forall (df : ref) (st st' : Store) (l : ref),
  (df < length st)%nat ->
  funnel_search df query_emb scales prune_ratio st = (Ok l, st') ->
  (scales = [] /\ l = df /\ st' = st) \/
  (scales <> [] /\ (length st <= l < length st')%nat).
Proof.
  induction scales as [|dims scales IH]; intros df st st' l Hdf H.
  - left. cbn in H. inversion H. auto.
  - right. split; [discriminate|].
    cbn [funnel_search] in H. unfold bind in H.
    rewrite funnel_search_body_run in H by exact Hdf.
    destruct (score_frame query_emb dims (deref st df)) as [scored|e];
      [|discriminate].
    cbv zeta in H.
    destruct (prune_count prune_ratio (length (sort_values scored)))
      as [k|e]; [|discriminate].
    set (st3 := (update df scored st ++ [sort_values scored])
                  ++ [slice_to k (sort_values scored)]) in H.
    assert (Hlen3 : length st3 = S (S (length st)))
      by (unfold st3; rewrite !length_app, update_length; simpl; lia).
    apply IH in H; [|lia].
    destruct H as [(_ & -> & ->)|(_ & H)]; lia.
Qed.

Lemma calculate_score_candidate (row1 row2 : Row) (q : vector) (dims : Z) :
  candidate row1 = candidate row2 ->
  calculate_score row1 q dims = calculate_score row2 q dims.
Proof.
  unfold candidate, calculate_score. intros H. injection H as _ He.
  now rewrite He.
Qed.

Lemma set_score_candidate (row1 row2 : Row) (s : float) :
  candidate row1 = candidate row2 -> set_score row1 s = set_score row2 s.
Proof.
  unfold candidate, set_score. intros H. injection H as Ht He.
  now rewrite Ht, He.
Qed.

Lemma mapM_candidate (f : Row -> result float) (fr1 fr2 : DataFrame) :
  (forall row1 row2, candidate row1 = candidate row2 -> f row1 = f row2) ->
  map candidate fr1 = map candidate fr2 -> mapM f fr1 = mapM f fr2.
Proof.
  intros Hf. revert fr2; induction fr1 as [|row1 fr1 IH];
    intros [|row2 fr2] H; cbn [map mapM] in *; try discriminate;
    [reflexivity|].
  assert (Hrow : candidate row1 = candidate row2) by congruence.
  assert (Hrest : map candidate fr1 = map candidate fr2) by congruence.
  now rewrite (Hf row1 row2 Hrow), (IH fr2 Hrest).
Qed.

Lemma assign_scores_ext (fr1 fr2 : DataFrame) (s : list float) :
  map candidate fr1 = map candidate fr2 ->
  assign_scores fr1 s = assign_scores fr2 s.
Proof.
  unfold assign_scores. revert fr2 s; induction fr1 as [|row1 fr1 IH];
    intros [|row2 fr2] s H; cbn [map] in H; try discriminate;
    [reflexivity|].
  assert (Hrow : candidate row1 = candidate row2) by congruence.
  assert (Hrest : map candidate fr1 = map candidate fr2) by congruence.
  destruct s as [|x s]; cbn [combine map fst snd]; [reflexivity|].
  now rewrite (@set_score_candidate row1 row2 x Hrow), (IH fr2 s Hrest).
Qed.

(** Scoring reads the titles and embeddings only. *)
Lemma score_frame_ext (dims : Z) (fr1 fr2 : DataFrame) :
  map candidate fr1 = map candidate fr2 ->
  score_frame query_emb dims fr1 = score_frame query_emb dims fr2.
Proof.
  intros H. unfold score_frame.
  rewrite (@mapM_candidate
             (fun row => calculate_score row
                           (normalize_query query_emb dims) dims) fr1 fr2);
    [|intros row1 row2; apply calculate_score_candidate|exact H].
  destruct fr1 as [|row1 fr1], fr2 as [|row2 fr2]; try discriminate;
    [reflexivity|].
  destruct (mapM _ (row2 :: fr2)) as [l|e]; cbn [rbind]; [|reflexivity].
  now rewrite (@assign_scores_ext (row1 :: fr1) (row2 :: fr2) l H).
Qed.

Lemma funnel_rounds_ext (scales : list Z) (fr1 fr2 : DataFrame) :
  scales <> [] ->
  map candidate fr1 = map candidate fr2 ->
  funnel_rounds query_emb prune_ratio scales fr1
  = funnel_rounds query_emb prune_ratio scales fr2.
Proof.
  destruct scales as [|d scales]; [congruence|]. intros _ H.
  cbn [funnel_rounds]. unfold funnel_round.
  now rewrite (@score_frame_ext d fr1 fr2 H).
Qed.

End Objects.

(** With at least one scale the frame a call returns is a new object: it is
    not the frame passed nor any other frame the caller holds.  With no
    scale the call returns the very frame it was passed and leaves the heap
    as it was. *)
Theorem funnel_search_returns_new_frame {kind : SortKind} {R : Reductions}
        (query_emb : vector) (prune_ratio : float) (scales : list Z)
        (df l : ref) (st st' : Store) :
  (df < length st)%nat ->
  funnel_search df query_emb scales prune_ratio st = (Ok l, st') ->
  (scales = [] -> l = df /\ st' = st) /\
  (scales <> [] -> (length st <= l < length st')%nat).
Proof.
  intros Hdf H.
  destruct (@funnel_search_result_ref kind R query_emb prune_ratio scales df st
              st' l Hdf H)
    as [(-> & -> & ->)|(Hne & Hl)]; split; auto; congruence.
Qed.

Lemma funnel_search_returns_new_frame_witness :
  (length store_ab
   <= 2 < length (snd (funnel_search 0%nat query_34 [2%Z] half store_ab)))%nat.
Proof.
  destruct (@funnel_search_returns_new_frame stable_kind left_to_right query_34 half [2]
              0%nat 2%nat store_ab
              (snd (funnel_search 0%nat query_34 [2] half store_ab)))
    as [_ Hnew].
  - simpl. lia.
  - vm_compute. reflexivity.
  - apply Hnew. discriminate.
Defined.

(** A score column already in the frame has no influence: with at least one
    scale, two calls on frames that hold the same titles and embeddings in
    the same order return the same frame, scores included. *)
Theorem funnel_search_ignores_old_scores {kind : SortKind} {R : Reductions}
        (query_emb : vector) (prune_ratio : float) (scales : list Z)
        (df1 df2 : ref) (st1 st2 : Store) :
  (df1 < length st1)%nat ->
  (df2 < length st2)%nat ->
  scales <> [] ->
  map candidate (deref st1 df1) = map candidate (deref st2 df2) ->
  returned (funnel_search df1 query_emb scales prune_ratio st1)
  = returned (funnel_search df2 query_emb scales prune_ratio st2).
Proof.
  intros Hdf1 Hdf2 Hne Hc.
  rewrite !returned_funnel_search by assumption.
  now apply funnel_rounds_ext.
Qed.

Lemma funnel_search_ignores_old_scores_witness :
  returned (funnel_search 0%nat query_34 [2] half store_ab)
  = returned (funnel_search 0%nat query_34 [2] half
                [[set_score row_a S754_nan; set_score row_b F64.zero]]).
Proof.
  apply (@funnel_search_ignores_old_scores stable_kind left_to_right query_34 half [2]
           0%nat 0%nat store_ab
           [[set_score row_a S754_nan; set_score row_b F64.zero]]).
  - simpl. lia.
  - simpl. lia.
  - discriminate.
  - reflexivity.
Defined.

(** Running the call again on the same frame, as when the notebook cell is
    executed twice, returns the same frame: the scores the first call wrote
    into the caller's frame do not change the second. *)
Theorem funnel_search_repeatable {kind : SortKind} {R : Reductions}
        (query_emb : vector) (prune_ratio : float) (scales : list Z)
        (df : ref) (st : Store) :
  (df < length st)%nat ->
  returned (funnel_search df query_emb scales prune_ratio
              (snd (funnel_search df query_emb scales prune_ratio st)))
  = returned (funnel_search df query_emb scales prune_ratio st).
Proof.
  intros Hdf.
  destruct (@funnel_search_run kind R query_emb prune_ratio scales df st Hdf)
    as (res & st' & Hrun & Hlen & _ & Hcaller & _).
  rewrite (@returned_funnel_search kind R query_emb prune_ratio scales df st)
    by exact Hdf.
  rewrite Hrun. cbn [snd].
  rewrite returned_funnel_search by lia.
  rewrite Hcaller. destruct scales as [|dims scales]; [reflexivity|].
  apply funnel_rounds_ext; [discriminate|].
  cbn [caller_frame_after].
  destruct (score_frame query_emb dims (deref st df)) as [scored|e] eqn:Hs;
    [|reflexivity].
  now apply score_frame_candidates in Hs as [Hc _].
Qed.

Lemma funnel_search_repeatable_witness :
  returned (funnel_search 0%nat query_34 [2] half
              (snd (funnel_search 0%nat query_34 [2] half store_ab)))
  = returned (funnel_search 0%nat query_34 [2] half store_ab).
Proof.
  apply (@funnel_search_repeatable stable_kind left_to_right query_34 half [2] 0%nat
           store_ab).
  simpl. lia.
Defined.

(** ** From the hits of a search to the frames *)

Lemma hits_to_dataframe_cons (h : Hit) (hits : list Hit) :
  hits_to_dataframe (h :: hits)
  = lookup_bind (getitem "title"%string (entity_title (hit_entity h)))
      (fun t =>
       lookup_bind
         (getitem "embedding"%string (entity_embedding (hit_entity h)))
         (fun e =>
          lookup_bind (hits_to_dataframe hits)
                      (fun fr => Found (mkRow t e None :: fr)))).
Proof.
  unfold hits_to_dataframe. cbn [map lookup_mapM].
  destruct (entity_title (hit_entity h)); [|reflexivity].
  destruct (entity_embedding (hit_entity h)); reflexivity.
Qed.

Lemma hits_to_dataframe_found (hits : list Hit) :
  forall fr, hits_to_dataframe hits = Found fr ->
  map (fun h => (entity_title (hit_entity h),
                 entity_embedding (hit_entity h))) hits
  = map (fun row => (Some (title row), Some (embedding row))) fr /\
  Forall (fun row => scores row = None) fr.
Proof.
  induction hits as [|h hits IH]; intros fr H.
  - inversion H; subst. split; [reflexivity|constructor].
  - rewrite hits_to_dataframe_cons in H.
    destruct (entity_title (hit_entity h)) as [t|] eqn:Ht; [|discriminate].
    destruct (entity_embedding (hit_entity h)) as [e|] eqn:He;
      [|discriminate].
    cbn [getitem lookup_bind] in H.
    destruct (hits_to_dataframe hits) as [fr'|key]; [|discriminate].
    cbn [lookup_bind] in H. inversion H; subst.
    destruct (IH fr' eq_refl) as [Hmap Hnone].
    split; [cbn [map title embedding]; now rewrite Ht, He, Hmap|].
    constructor; [reflexivity|exact Hnone].
Qed.

(** [hits_to_dataframe] keeps one row per hit, in the order of the hits,
    with the title and the embedding of the hit and no score (the id, the
    distance and the head embedding of the hit are dropped); it raises
    [KeyError] when the entity of a hit lacks one of the two fields, and
    then names the first key missing in the first such hit. *)
Theorem hits_to_dataframe_rows (hits : list Hit) :
  match hits_to_dataframe hits with
  | Found fr =>
      map (fun h => (entity_title (hit_entity h),
                     entity_embedding (hit_entity h))) hits
      = map (fun row => (Some (title row), Some (embedding row))) fr /\
      Forall (fun row => scores row = None) fr
  | KeyError key =>
      exists before h after,
        hits = before ++ h :: after /\
        Forall (fun h' => entity_title (hit_entity h') <> None /\
                          entity_embedding (hit_entity h') <> None) before /\
        ((key = "title"%string /\ entity_title (hit_entity h) = None) \/
         (key = "embedding"%string /\
          entity_title (hit_entity h) <> None /\
          entity_embedding (hit_entity h) = None))
  end.
Proof.
  induction hits as [|h hits IH].
  - cbn. split; [reflexivity|constructor].
  - destruct (hits_to_dataframe (h :: hits)) as [fr|key] eqn:H.
    + now apply hits_to_dataframe_found.
    + rewrite hits_to_dataframe_cons in H.
      destruct (entity_title (hit_entity h)) as [t|] eqn:Ht.
      2:{ cbn in H. inversion H; subst. exists [], h, hits.
          split; [reflexivity|]. split; [constructor|]. now left. }
      destruct (entity_embedding (hit_entity h)) as [e|] eqn:He.
      2:{ cbn in H. inversion H; subst. exists [], h, hits.
          split; [reflexivity|]. split; [constructor|]. right.
          split; [reflexivity|]. split; [now rewrite Ht|exact He]. }
      cbn [getitem lookup_bind] in H.
      destruct (hits_to_dataframe hits) as [fr'|key']; [discriminate|].
      cbn [lookup_bind] in H. inversion H; subst.
      destruct IH as (before & h0 & after & -> & Hbefore & Hkey).
      exists (h :: before), h0, after. split; [reflexivity|].
      split; [|exact Hkey]. constructor; [|exact Hbefore].
      rewrite Ht, He. split; discriminate.
Qed.

(** Every title that the notebook prints after a funnel search over the
    frame of some hits is the title of one of these hits, and no more than
    [n] titles are printed for [[:n]]. *)
Theorem shown_titles_from_hits {kind : SortKind} {R : Reductions}
        (hits : list Hit)
        (query_emb : vector) (scales : list Z) (prune_ratio : float)
        (df : ref) (st : Store) (out : DataFrame) (n : Z) :
  (df < length st)%nat ->
  hits_to_dataframe hits = Found (deref st df) ->
  returned (funnel_search df query_emb scales prune_ratio st) = Ok out ->
  0 <= n ->
  Z.of_nat (length (shown_titles n out)) <= n /\
  forall t, In t (shown_titles n out) ->
            exists h, In h hits /\ entity_title (hit_entity h) = Some t.
Proof.
  intros Hdf Hhits H Hn. split.
  - unfold shown_titles, slice_to. rewrite length_map.
    destruct (n <? 0) eqn:Hneg; [lia|]. rewrite length_firstn. lia.
  - intros t Ht. unfold shown_titles in Ht.
    apply in_map_iff in Ht as (row & <- & Hrow).
    destruct (slice_to_split n out) as [dropped Hout].
    assert (Hin : In row out) by (rewrite Hout; apply in_or_app; now left).
    rewrite returned_funnel_search in H by exact Hdf.
    apply funnel_rounds_submultiset in H as [rest Hperm].
    assert (Hc : In (candidate row) (map candidate (deref st df))).
    { eapply Permutation_in; [symmetry; exact Hperm|].
      apply in_or_app. left. now apply in_map. }
    apply in_map_iff in Hc as (row' & Hsame & Hrow').
    apply hits_to_dataframe_found in Hhits as [Hmap _].
    assert (Hp : In (Some (title row'), Some (embedding row'))
                    (map (fun h => (entity_title (hit_entity h),
                                    entity_embedding (hit_entity h))) hits)).
    { rewrite Hmap.
      apply (in_map (fun r => (Some (title r), Some (embedding r)))).
      exact Hrow'. }
    apply in_map_iff in Hp as (h & Hh & Hhin).
    exists h. split; [exact Hhin|].
    unfold candidate in Hsame. congruence.
Qed.

Lemma shown_titles_from_hits_witness :
  Z.of_nat (length (shown_titles 5 [set_score row_a F64.one])) <= 5 /\
  forall t, In t (shown_titles 5 [set_score row_a F64.one]) ->
            exists h, In h hits_ab /\ entity_title (hit_entity h) = Some t.
Proof.
  apply (@shown_titles_from_hits stable_kind left_to_right hits_ab query_34 [2] half 0%nat
           store_ab [set_score row_a F64.one] 5).
  - simpl. lia.
  - vm_compute. reflexivity.
  - vm_compute. reflexivity.
  - lia.
Defined.

(** ** One call per query on one heap *)

Definition job_df (job : String.string * ref * vector) : ref :=
  snd (fst job).

Lemma zip3_dfs {A C} (a : list A) :
  forall (dfs : list ref) (c : list C),
  exists rest, dfs = map (fun job => snd (fst job)) (zip3 a dfs c) ++ rest.
Proof.
  induction a as [|x a IH]; intros dfs c; [now exists dfs|].
  destruct dfs as [|df dfs]; [now exists []|].
  destruct c as [|z c]; [now exists (df :: dfs)|].
  destruct (IH dfs c) as [rest Hrest]. exists rest.
  cbn [zip3 map fst snd app]. now rewrite <- Hrest.
Qed.

Lemma Forall2_impl_In {A B} (P Q : A -> B -> Prop) (l : list A)
      (l' : list B) :
  (forall a b, In a l -> P a b -> Q a b) ->
  Forall2 P l l' -> Forall2 Q l l'.
Proof.
  intros Himp H. induction H as [|a b l l' Hab H IH]; constructor.
  - apply Himp; [now left|exact Hab].
  - apply IH. intros a' b' Ha'. apply Himp. now right.
Qed.

Section Queries.
Context {kind : SortKind} {R : Reductions}.

Lemma funnel_search_each_cons (query : String.string) (df : ref)
      (query_emb : vector) (jobs : list (String.string * ref * vector))
      (st : Store) (results : list QueryResults) (st' : Store) :
  funnel_search_each ((query, df, query_emb) :: jobs) st = (Ok results, st') ->
  exists l st1 rest,
    funnel_search df query_emb default_scales default_prune_ratio st
    = (Ok l, st1) /\
    funnel_search_each jobs st1 = (Ok rest, st') /\
    results = mkQueryResults query l :: rest.
Proof.
  cbn [funnel_search_each]. unfold bind at 1.
  destruct (funnel_search df query_emb default_scales default_prune_ratio st)
    as [[l|e] st1]; [|discriminate].
  unfold bind at 1.
  destruct (funnel_search_each jobs st1) as [[rest|e] st2] eqn:Hrest;
    [|discriminate].
  unfold ret. intros H. inversion H; subst. now exists l, st1, rest.
Qed.

Lemma funnel_search_each_frame (jobs : list (String.string * ref * vector)) :
  forall (st : Store) (results : list QueryResults) (st' : Store),
  Forall (fun job => (job_df job < length st)%nat) jobs ->
  funnel_search_each jobs st = (Ok results, st') ->
  (length st <= length st')%nat /\
  forall l, (l < length st)%nat -> ~ In l (map job_df jobs) ->
            deref st' l = deref st l.
Proof.
  induction jobs as [|[[query df] query_emb] jobs IH];
    intros st results st' Hin H.
  - cbn in H. inversion H; subst. split; [lia|reflexivity].
  - apply funnel_search_each_cons in H as (l & st1 & rest & Hcall & Hrest & _).
    inversion Hin as [|? ? Hdf Hjobs]; subst. unfold job_df in Hdf.
    cbn [fst snd] in Hdf.
    destruct (funnel_search_run query_emb default_prune_ratio default_scales
                st Hdf) as (res & st1' & Hrun & Hlen & Hothers & _).
    rewrite Hcall in Hrun. inversion Hrun; subst res st1'.
    destruct (IH st1 rest st') as [Hlen' Hothers'].
    + eapply Forall_impl; [|exact Hjobs]. cbv beta. intros job Hjob. lia.
    + exact Hrest.
    + split; [lia|]. intros l0 Hl0 Hnot. cbn [map In] in Hnot.
      rewrite Hothers' by (try lia; tauto).
      apply Hothers; [exact Hl0|].
      intros ->. apply Hnot. now left.
Qed.

Lemma funnel_search_each_results
      (jobs : list (String.string * ref * vector)) :
  forall (st : Store) (results : list QueryResults) (st' : Store),
  NoDup (map job_df jobs) ->
  Forall (fun job => (job_df job < length st)%nat) jobs ->
  funnel_search_each jobs st = (Ok results, st') ->
  Forall2 (fun job d =>
             d_query d = fst (fst job) /\
             funnel_rounds (snd job) default_prune_ratio default_scales
                           (deref st (job_df job))
             = Ok (deref st' (d_results d)))
          jobs results.
Proof.
  induction jobs as [|[[query df] query_emb] jobs IH];
    intros st results st' Hnodup Hin H.
  - cbn in H. inversion H; subst. constructor.
  - apply funnel_search_each_cons in H
      as (l & st1 & rest & Hcall & Hrest & ->).
    inversion Hin as [|? ? Hdf Hjobs]; subst. unfold job_df in Hdf.
    cbn [fst snd] in Hdf.
    cbn [map] in Hnodup. inversion Hnodup as [|? ? Hfresh Hnodup']; subst.
    unfold job_df at 1 in Hfresh. cbn [fst snd] in Hfresh.
    destruct (funnel_search_run query_emb default_prune_ratio default_scales
                st Hdf) as (res & st1' & Hrun & Hlen & Hothers & _ & Hres).
    rewrite Hcall in Hrun. inversion Hrun; subst res st1'.
    assert (Hjobs1 : Forall (fun job => (job_df job < length st1)%nat) jobs).
    { eapply Forall_impl; [|exact Hjobs]. cbv beta. intros job Hjob. lia. }
    destruct (@funnel_search_each_frame jobs st1 rest st' Hjobs1 Hrest)
      as [_ Hkeep].
    constructor.
    + cbn [d_query d_results fst snd]. split; [reflexivity|].
      unfold job_df. cbn [fst snd].
      destruct (funnel_rounds query_emb default_prune_ratio default_scales
                              (deref st df)) as [out|e].
      * destruct Hres as (l' & Hl' & Hlt & Hout).
        inversion Hl'; subst l'. rewrite Hkeep; [now rewrite Hout|exact Hlt|].
        destruct (funnel_search_result_ref query_emb default_prune_ratio
                    default_scales st Hdf Hcall)
          as [(Hnil & _)|(_ & Hfresh')]; [discriminate|].
        intros Hl. apply in_map_iff in Hl as (job & Hjob & Hjin).
        rewrite Forall_forall in Hjobs. specialize (Hjobs job Hjin). lia.
      * discriminate.
    + specialize (IH st1 rest st' Hnodup' Hjobs1 Hrest).
      eapply Forall2_impl_In; [|exact IH]. cbv beta.
      intros job d Hjob [Hq Hr]. split; [exact Hq|].
      rewrite <- Hr. f_equal. symmetry. apply Hothers.
      * rewrite Forall_forall in Hjobs. now apply Hjobs.
      * intros Heq. apply Hfresh. rewrite <- Heq. now apply in_map.
Qed.

End Queries.

(** The calls of the cell do not disturb one another: when the frames are
    distinct objects, each entry keeps the query it was made for, and its
    results, read when the whole cell is done, are what [funnel_search]
    returns for that frame and query embedding run alone on the heap as it
    was before the cell; there is one entry per tuple of the [zip]. *)
Theorem dfs_results_independent {kind : SortKind} {R : Reductions}
        (queries : list String.string) (dfs : list ref)
        (search_data : list vector) (st : Store)
        (results : list QueryResults) (st' : Store) :
  NoDup dfs ->
  Forall (fun df => (df < length st)%nat) dfs ->
  dfs_results queries dfs search_data st = (Ok results, st') ->
  Forall2 (fun job d =>
             d_query d = fst (fst job) /\
             returned (funnel_search (snd (fst job)) (snd job) default_scales
                                     default_prune_ratio st)
             = Ok (deref st' (d_results d)))
          (zip3 queries dfs search_data) results.
Proof.
  intros Hnodup Hin H. unfold dfs_results in H.
  destruct (zip3_dfs queries dfs search_data) as [rest Hdfs].
  assert (Hnodup' : NoDup (map job_df (zip3 queries dfs search_data))).
  { rewrite Hdfs in Hnodup. now apply NoDup_app_remove_r in Hnodup. }
  assert (Hin' : Forall (fun job => (job_df job < length st)%nat)
                        (zip3 queries dfs search_data)).
  { rewrite Hdfs in Hin. apply Forall_app in Hin as [Hin _].
    now rewrite Forall_map in Hin. }
  pose proof (@funnel_search_each_results kind R _ _ _ _ Hnodup' Hin' H)
    as Hres.
  eapply Forall2_impl_In; [|exact Hres]. cbv beta.
  intros job d Hjob [Hq Hr]. split; [exact Hq|].
  rewrite returned_funnel_search; [exact Hr|].
  rewrite Forall_forall in Hin'. now apply Hin'.
Qed.

Lemma dfs_results_independent_witness :
  exists results st',
    dfs_results (kind := stable_kind) ["a"%string; "b"%string] [0%nat; 1%nat]
                [query_34; [f32 4; f32 3]; query_zero] store_8_8
    = (Ok results, st') /\
    Forall2 (fun job d =>
               d_query d = fst (fst job) /\
               returned (funnel_search (snd (fst job)) (snd job)
                                       default_scales default_prune_ratio
                                       store_8_8)
               = Ok (deref st' (d_results d)))
            (zip3 ["a"%string; "b"%string] [0%nat; 1%nat]
                  [query_34; [f32 4; f32 3]; query_zero])
            results.
Proof.
  eexists. eexists. split.
  - vm_compute. reflexivity.
  - apply (@dfs_results_independent stable_kind left_to_right).
    + repeat constructor; simpl; lia.
    + repeat constructor; simpl; lia.
    + vm_compute. reflexivity.
Defined.

(** ** Flipped embeddings *)

(** The head of a flipped embedding is the tail of the embedding,
    reversed: the [d] components that the search and the first rounds of
    the funnel see after the flip are the last [d] of the model's
    output. *)
Theorem flip_head_is_tail (x : vector) (d : Z) :
  0 <= d ->
  slice_to d (flip x) = flip (skipn (length x - Z.to_nat d) x).
Proof.
  intros Hd. unfold slice_to, flip.
  destruct (d <? 0) eqn:Hneg; [lia|]. apply firstn_rev.
Qed.

Lemma flip_head_is_tail_witness :
  slice_to 2 (flip [f32 1; f32 2; f32 3])
  = flip (skipn (length [f32 1; f32 2; f32 3] - Z.to_nat 2)
                [f32 1; f32 2; f32 3]).
Proof.
  apply (@flip_head_is_tail [f32 1; f32 2; f32 3] 2). lia.
Defined.

(** ** [format_docs] *)

Lemma string_app_assoc (s1 s2 s3 : String.string) :
  String.append (String.append s1 s2) s3
  = String.append s1 (String.append s2 s3).
Proof.
  induction s1 as [|c s1 IH]; [reflexivity|].
  cbn [String.append]. now rewrite IH.
Qed.

Lemma concat_app (sep : String.string) (a b : list String.string) :
  a <> [] -> b <> [] ->
  String.concat sep (a ++ b)
  = String.append (String.concat sep a)
                  (String.append sep (String.concat sep b)).
Proof.
  intros Ha Hb. induction a as [|x a IH]; [contradiction|].
  destruct a as [|y a].
  - destruct b as [|z b]; [contradiction|]. reflexivity.
  - change (String.concat sep ((x :: y :: a) ++ b))
      with (String.append x
              (String.append sep (String.concat sep ((y :: a) ++ b)))).
    rewrite IH by discriminate.
    change (String.concat sep (x :: y :: a))
      with (String.append x
              (String.append sep (String.concat sep (y :: a)))).
    now rewrite !string_app_assoc.
Qed.

(** The text of two batches of documents is the text of the first, a
    blank line, and the text of the second; the separator stands between
    documents only, never at either end. *)
Theorem format_docs_app (a b : list Document) :
  a <> [] -> b <> [] ->
  format_docs (a ++ b)
  = String.append (format_docs a)
                  (String.append LF (String.append LF (format_docs b))).
Proof.
  intros Ha Hb. unfold format_docs. rewrite map_app.
  rewrite concat_app.
  - now rewrite !string_app_assoc.
  - destruct a; [contradiction|discriminate].
  - destruct b; [contradiction|discriminate].
Qed.

Lemma format_docs_app_witness :
  format_docs ([mkDocument "a"%string []] ++ [mkDocument "b"%string []])
  = String.append (format_docs [mkDocument "a"%string []])
      (String.append LF
         (String.append LF (format_docs [mkDocument "b"%string []]))).
Proof.
  apply (@format_docs_app [mkDocument "a"%string []]
                          [mkDocument "b"%string []]); discriminate.
Defined.

(** ** The evaluation loop *)

Section Scores.
Variable strip : String.string -> String.string.
Variable search : String.string -> list Retrieved.

Lemma golden_contents_of_length (golden_documents : list GoldenDocument)
      (golden_chunk_uuids : list (String.string * Z)) :
  forall golden_contents,
  (length golden_contents
   <= length (golden_contents_of strip golden_documents golden_chunk_uuids
                                 golden_contents)
   <= length golden_contents + length golden_chunk_uuids)%nat.
Proof.
  induction golden_chunk_uuids as [|[uuid index] rest IH];
    intros golden_contents; cbn [golden_contents_of length]; [lia|].
  destruct (next _ golden_documents) as [golden_doc|].
  - destruct (next _ (doc_chunks golden_doc)) as [golden_chunk|].
    + specialize (IH (golden_contents
                        ++ [strip (chunk_content golden_chunk)])).
      rewrite length_app in IH. cbn [length] in IH. lia.
    + specialize (IH golden_contents). lia.
  - specialize (IH golden_contents). lia.
Qed.

Lemma count_found_bounds (results : list Retrieved)
      (golden_contents : list String.string) :
  forall chunks_found,
  chunks_found
  <= count_found strip golden_contents results chunks_found
  <= chunks_found + Z.of_nat (length golden_contents).
Proof.
  induction golden_contents as [|g rest IH]; intros chunks_found;
    cbn [count_found length]; [lia|].
  destruct (existsb _ _).
  - specialize (IH (chunks_found + 1)). lia.
  - specialize (IH chunks_found). lia.
Qed.

Lemma query_score_zero_division (query_item : QueryItem) :
  query_score strip search query_item = ZeroDivisionError <->
  golden_contents_of strip (item_golden_documents query_item)
                     (item_golden_chunk_uuids query_item) [] = [].
Proof.
  unfold query_score, true_divide.
  destruct (golden_contents_of strip (item_golden_documents query_item)
              (item_golden_chunk_uuids query_item) []) as [|g rest].
  - cbn. tauto.
  - cbn [length]. destruct (Z.of_nat (S (length rest)) =? 0) eqn:Hz;
      [apply Z.eqb_eq in Hz; lia|].
    split; discriminate.
Qed.

Lemma evaluate_outcome (dataset : list QueryItem) :
  forall total num_queries,
  match evaluate strip search dataset total num_queries with
  | Quotient (_, n) =>
      n = num_queries + Z.of_nat (length dataset) /\
      Forall (fun query_item =>
                query_score strip search query_item <> ZeroDivisionError)
             dataset
  | ZeroDivisionError =>
      Exists (fun query_item =>
                query_score strip search query_item = ZeroDivisionError)
             dataset
  end.
Proof.
  induction dataset as [|query_item dataset IH]; intros total num_queries;
    cbn [evaluate length].
  - split; [lia|constructor].
  - destruct (query_score strip search query_item) as [s|] eqn:Hs.
    + specialize (IH (SFadd F64.prec F64.emax total s) (num_queries + 1)).
      destruct (evaluate strip search dataset _ _) as [[t n]|].
      * destruct IH as [Hn Hall]. split; [lia|].
        constructor; [now rewrite Hs|exact Hall].
      * now apply Exists_cons_tl.
    + now apply Exists_cons_hd.
Qed.

End Scores.

(** For every query of the evaluation set the chunks found are at most
    the golden contents, and these at most the golden chunks that the item
    lists: the score of a query is the quotient of a count between zero
    and its divisor. *)
Theorem chunks_found_bounded (strip : String.string -> String.string)
        (search : String.string -> list Retrieved) (query_item : QueryItem) :
  let golden_contents :=
    golden_contents_of strip (item_golden_documents query_item)
                       (item_golden_chunk_uuids query_item) [] in
  0 <= count_found strip golden_contents (search (item_query query_item)) 0
    <= Z.of_nat (length golden_contents) /\
  (length golden_contents
   <= length (item_golden_chunk_uuids query_item))%nat.
Proof.
  cbv zeta. split.
  - apply count_found_bounds.
  - pose proof (golden_contents_of_length strip
                  (item_golden_documents query_item)
                  (item_golden_chunk_uuids query_item) []) as H.
    cbn [length] in H. lia.
Qed.

(** The evaluation ends in [ZeroDivisionError] exactly when the set is
    empty or one of its queries has no golden content, that is, none of
    its golden chunks is found in its golden documents. *)
Theorem pass_at_k_zero_division (strip : String.string -> String.string)
        (search : String.string -> list Retrieved)
        (dataset : list QueryItem) :
  pass_at_k strip search dataset = ZeroDivisionError <->
  dataset = [] \/
  Exists (fun query_item =>
            golden_contents_of strip (item_golden_documents query_item)
                               (item_golden_chunk_uuids query_item) [] = [])
         dataset.
Proof.
  unfold pass_at_k.
  pose proof (evaluate_outcome strip search dataset F64.zero 0) as H.
  destruct (evaluate strip search dataset F64.zero 0) as [[t n]|].
  - destruct H as [Hn Hall]. split.
    + destruct (n =? 0) eqn:Hz; [|discriminate]. intros _. left.
      apply Z.eqb_eq in Hz.
      destruct dataset; [reflexivity|]. cbn [length] in Hn. lia.
    + intros [->|Hex].
      * cbn in Hn. subst n. reflexivity.
      * exfalso. apply Exists_exists in Hex as (query_item & Hin & Hnone).
        rewrite Forall_forall in Hall. apply (Hall query_item Hin).
        now apply query_score_zero_division.
  - split; [|reflexivity]. intros _. right.
    apply Exists_exists in H as (query_item & Hin & Hnone).
    apply Exists_exists. exists query_item. split; [exact Hin|].
    now apply query_score_zero_division in Hnone.
Qed.
